(** * Road-safety recommendation engine: the ranker and the free-text parser

    A shallow embedding of [src/main.py] (the functions [normalize],
    [list_overlap], [speed_in_range], [rank_interventions],
    [parse_free_text] and the filter merge and output trimming of
    [recommend]) together with the properties the specification states
    about them.

    Conventions of the embedding.
    - A Python [str] is a [string] whose characters are the code points
      below 256 (the Latin-1 block); [strip], [lower], [split],
      [isdigit] and [int] are written out for all 256 of them.
    - A Python [float] is an IEEE-754 binary64 number.  Every finite
      binary64 number is an integer multiple of [2^-1074], so a float is
      kept as that integer ([Binary64.float]); each arithmetic operation
      is the exact result rounded to nearest, ties to even.
    - A stored document is a record whose optional or possibly missing
      keys are [option] fields ([None]: the key is absent or null). *)

From Stdlib Require Import ZArith Lia List Bool Ascii String Sorting.Sorted.
From Stdlib Require Import Floats.SpecFloat.
From stdpp Require Import base gmap strings list pretty sorting.

(** ** IEEE-754 binary64 arithmetic on exact integers *)

Module Binary64.
Local Open Scope Z_scope.

(** A finite double [v] is stored as the integer [v * 2^1074]. *)
Definition float := Z.

Definition scale : Z := 2 ^ 1074.

Definition zero : float := 0.
Definition one : float := scale.

(** [round_half_even n d] is the integer nearest to [n / d] (for [0 < d]),
    the even one of the two when [n / d] lies half way. *)
Definition round_half_even (n d : Z) : Z :=
  let q := n / d in
  let r := n mod d in
  match 2 * r ?= d with
  | Lt => q
  | Gt => q + 1
  | Eq => if Z.even q then q else q + 1
  end.

(** The number of low-order bits that a value of magnitude [a / b] (in
    units of [2^-1074]) loses to fit a 53-bit significand; [0] throughout
    the subnormal range and the first normal binades. *)
Definition shift_of (a b : Z) : Z := Z.max 0 (Z.log2 (a / b) - 52).

Definition round_pos (a b : Z) : float :=
  let i := shift_of a b in
  round_half_even a (b * 2 ^ i) * 2 ^ i.

(** [round a b] is the double nearest to the rational [a / b] units
    ([0 < b]), ties to even: what every binary64 operation returns for
    the exact result [a / b].  Infinities and NaN are not represented:
    the ranker only divides by a positive count, and none of its values
    exceeds 1.0 (see [score_state_bounds]), so nothing overflows. *)
Definition round (a b : Z) : float :=
  Z.sgn a * round_pos (Z.abs a) b.

(** A decimal literal [n / d], as the parser of the language reads it. *)
Definition literal (n d : Z) : float := round (n * scale) d.

(** [x + y], [x * y] on floats, and [k / n] on two Python integers (true
    division is correctly rounded whatever the size of [k] and [n]). *)
Definition add (x y : float) : float := round (x + y) 1.
Definition mul (x y : float) : float := round (x * y) scale.
Definition int_truediv (k n : Z) : float := round (k * scale) n.

(** [round(x, 4)]: the exact value of [x] is rounded to four decimal
    digits, ties to even, and the decimal result is converted back to the
    nearest double. *)
Definition round4 (x : float) : float :=
  round (round_half_even (x * 10000) scale * scale) 10000.

(** [x] is (the integer of) a double: rounding leaves it alone. *)
Definition representable (x : float) : Prop := round x 1 = x.

Definition ltb (x y : float) : bool := x <? y.
Definition leb (x y : float) : bool := x <=? y.

(** The same number as a [spec_float] of the Standard Library, to compare
    the operations above with its binary64 ones. *)
Definition to_spec_float (x : float) : spec_float :=
  binary_normalize 53 1024 x (-1074) false.

End Binary64.

Arguments Binary64.round : simpl never.
Arguments Binary64.literal : simpl never.
Arguments Binary64.add : simpl never.
Arguments Binary64.mul : simpl never.
Arguments Binary64.int_truediv : simpl never.
Arguments Binary64.round4 : simpl never.
Arguments Binary64.scale : simpl never.
Arguments Binary64.one : simpl never.

(** ** Python string operations, on code points below 256 *)

Module PyStr.
Local Open Scope N_scope.

(** [str.isspace] of one character: TAB..CR, FS..US, SPACE, NEL, NBSP. *)
Definition isspace (c : ascii) : bool :=
  let n := N_of_ascii c in
  ((9 <=? n) && (n <=? 13)) || ((28 <=? n) && (n <=? 32))
  || (n =? 133) || (n =? 160).

(** [str.lower] of one character: A..Z, and the accented capitals
    U+00C0..U+00DE except the multiplication sign U+00D7. *)
Definition lower_char (c : ascii) : ascii :=
  let n := N_of_ascii c in
  if ((65 <=? n) && (n <=? 90))
     || ((192 <=? n) && (n <=? 222) && negb (n =? 215))
  then ascii_of_N (n + 32) else c.

Fixpoint lower (s : string) : string :=
  match s with
  | EmptyString => EmptyString
  | String c s' => String (lower_char c) (lower s')
  end.

Fixpoint lstrip (s : string) : string :=
  match s with
  | EmptyString => EmptyString
  | String c s' => if isspace c then lstrip s' else s
  end.

Fixpoint rstrip (s : string) : string :=
  match s with
  | EmptyString => EmptyString
  | String c s' =>
      match rstrip s' with
      | EmptyString => if isspace c then EmptyString else String c EmptyString
      | t => String c t
      end
  end.

Definition strip (s : string) : string := rstrip (lstrip s).

(** [needle in hay]. *)
Fixpoint contains (needle hay : string) : bool :=
  String.prefix needle hay
  || match hay with
     | EmptyString => false
     | String _ hay' => contains needle hay'
     end.

(** [s.replace(old, new)] for a non-empty [old]: left to right, without
    overlap; [skip] counts the characters of a match still to be dropped. *)
Fixpoint replace_from (old new s : string) (skip : nat) : string :=
  match s with
  | EmptyString => EmptyString
  | String c s' =>
      match skip with
      | S k => replace_from old new s' k
      | O =>
          if String.prefix old s
          then new +:+ replace_from old new s' (String.length old - 1)
          else String c (replace_from old new s' 0)
      end
  end.

(** With an empty [old], [new] goes before every character and at the end. *)
Fixpoint intersperse (new s : string) : string :=
  match s with
  | EmptyString => new
  | String c s' => new +:+ String c (intersperse new s')
  end.

Definition replace (old new s : string) : string :=
  match old with
  | EmptyString => intersperse new s
  | _ => replace_from old new s 0
  end.

(** [s.split()]: the maximal runs of characters that are not whitespace. *)
Fixpoint split (s : string) : list string :=
  match s with
  | EmptyString => []
  | String c s' =>
      if isspace c then split s'
      else match s' with
           | EmptyString => [String c EmptyString]
           | String c' _ =>
               if isspace c' then String c EmptyString :: split s'
               else match split s' with
                    | t :: ts => String c t :: ts
                    | [] => [String c EmptyString]
                    end
           end
  end.

(** ASCII decimal digits, the only ones [int] can read below 256. *)
Definition isdecimal_char (c : ascii) : bool :=
  let n := N_of_ascii c in (48 <=? n) && (n <=? 57).

(** [str.isdigit] of one character: the decimal digits and the superscript
    digits U+00B2, U+00B3, U+00B9. *)
Definition isdigit_char (c : ascii) : bool :=
  let n := N_of_ascii c in
  isdecimal_char c || (n =? 178) || (n =? 179) || (n =? 185).

Fixpoint forall_chars (p : ascii -> bool) (s : string) : bool :=
  match s with
  | EmptyString => true
  | String c s' => p c && forall_chars p s'
  end.

(** [s.isdigit()]: at least one character, all of them digits. *)
Definition isdigit (s : string) : bool :=
  match s with
  | EmptyString => false
  | _ => forall_chars isdigit_char s
  end.

Fixpoint int_from (acc : Z) (s : string) : option Z :=
  match s with
  | EmptyString => Some acc
  | String c s' =>
      if isdecimal_char c
      then int_from (10 * acc + (Z.of_N (N_of_ascii c) - 48))%Z s'
      else None
  end.

(** [int(s)] for an [s] that passed [isdigit] (no sign, blank or
    underscore to consider); [None] is the [ValueError] raised on a
    character without a decimal value.  The interpreter's configurable
    limit on the length of an integer string is not modelled. *)
Definition int (s : string) : option Z :=
  match s with
  | EmptyString => None
  | _ => int_from 0%Z s
  end.

End PyStr.

(** ** Constants of [main.py] *)

Definition KNOWN_ROAD_TYPES : list string :=
  [ "urban arterial"; "urban collector"; "local street"; "rural highway";
    "rural arterial"; "expressway"; "village road"; "residential street";
    "state highway"; "national highway" ].

Definition KNOWN_ISSUES : list string :=
  [ "speeding"; "pedestrian crashes"; "rear-end crashes"; "run-off-road";
    "head-on"; "intersection conflicts"; "nighttime visibility"; "overtaking";
    "wrong-way"; "work zone safety"; "bicyclist safety"; "school zone safety" ].

Definition KNOWN_ENVIRONMENTS : list string :=
  [ "school zone"; "market area"; "mixed land use"; "curve"; "intersection";
    "midblock"; "work zone"; "bridge"; "tunnel"; "bus stop";
    "railway crossing" ].

(** [WEIGHTS], each entry the double its decimal literal denotes. *)
Definition W_issues : Binary64.float := Binary64.literal 45 100.
Definition W_road_types : Binary64.float := Binary64.literal 25 100.
Definition W_environments : Binary64.float := Binary64.literal 2 10.
Definition W_speed : Binary64.float := Binary64.literal 5 100.
Definition W_urban_rural : Binary64.float := Binary64.literal 5 100.

Arguments W_issues : simpl never.
Arguments W_road_types : simpl never.
Arguments W_environments : simpl never.
Arguments W_speed : simpl never.
Arguments W_urban_rural : simpl never.

(** ** Data *)

Record reference := {
  ref_source : option string;
  ref_title : option string;
  ref_url : option string;
  ref_excerpt : option string
}.

(** A stored intervention document, with the keys the ranker reads and
    those of the response that matter here ([constraints] and
    [co_benefits] are only copied to the response and are left out).
    [None] is a key that is absent (or null, for the keys the schema
    declares optional: the code only tests their truth value). *)
Record intervention := {
  it_id : string;
  it_name : string;
  it_description : string;
  it_road_types : option (list string);
  it_issues : option (list string);
  it_environments : option (list string);
  it_suitable_speed_range : option (list Z);
  it_urban_rural : option (list string);
  it_references : option (list reference)
}.

(** The keyword arguments of [rank_interventions], which are also the
    keys of the [filters] dictionary of [recommend]. *)
Record filters := {
  road_type : option string;
  issues : list string;
  environments : list string;
  speed_kmh : option Z;
  urban_rural : option string
}.

(** The dictionary [{**it, "_score": ..., "_reasons": ...}]. *)
Record ranked_item := {
  item : intervention;
  _score : Binary64.float;
  _reasons : list string
}.

(** ** Utilities *)

Definition normalize (text : string) : string := PyStr.lower (PyStr.strip text).

Definition normalized_set (a : list string) : gset string :=
  list_to_set (normalize <$> a).

Definition list_overlap (a b : list string) : nat :=
  size (normalized_set a ∩ normalized_set b).

Definition speed_in_range (speed_kmh : option Z) (rng : option (list Z)) : bool :=
  match speed_kmh, rng with
  | Some v, Some [lo; hi] => ((lo <=? v) && (v <=? hi))%Z
  | _, _ => false
  end.

(** [it.get(key, [])] and the truth value of an optional string or list. *)
Definition get_list {A} (field : option (list A)) : list A := default [] field.

Definition nonempty_list {A} (l : list A) : bool :=
  match l with [] => false | _ => true end.

Definition is_not_None {A} (x : option A) : bool :=
  match x with Some _ => true | None => false end.

Definition truthy_string (s : option string) : bool :=
  match s with Some (String _ _) => true | _ => false end.

Definition truthy_list {A} (l : option (list A)) : bool :=
  match l with Some (_ :: _) => true | _ => false end.

(** ** The ranker *)

(** The two local variables of the loop body, [score] and [reasons], and
    the two statements that update them. *)
Definition rank_state : Type := Binary64.float * list string.

Definition add_score (s : Binary64.float) (st : rank_state) : rank_state :=
  (Binary64.add (fst st) s, snd st).

Definition add_reason (r : string) (st : rank_state) : rank_state :=
  (fst st, snd st ++ [r]).

(** [len(set(map(normalize, labels)))]. *)
Definition distinct_count (labels : list string) : nat :=
  size (normalized_set labels).

Definition issues_reason (overlap n : nat) : string :=
  "Matches issues: " +:+ pretty overlap +:+ "/" +:+ pretty n.

(** The five blocks of the loop body, in the order of the source.  The
    divisor of the issues and environments blocks is never zero: the
    block runs on a non-empty list only (see [distinct_count_pos]). *)
Definition issues_block (F : filters) (it : intervention) (st : rank_state)
  : rank_state :=
  if nonempty_list (issues F) then
    let overlap := list_overlap (issues F) (get_list (it_issues it)) in
    if (0 <? length (issues F))%nat then
      let s := Binary64.mul W_issues
                 (Binary64.int_truediv (Z.of_nat overlap)
                    (Z.of_nat (distinct_count (issues F)))) in
      let st := add_score s st in
      if (0 <? overlap)%nat
      then add_reason (issues_reason overlap (distinct_count (issues F))) st
      else st
    else st
  else st.

Definition road_type_block (F : filters) (it : intervention) (st : rank_state)
  : rank_state :=
  if truthy_string (road_type F) then
    let overlap :=
      list_overlap [default EmptyString (road_type F)]
                   (get_list (it_road_types it)) in
    if (0 <? overlap)%nat
    then add_reason "Applicable to specified road type"
           (add_score W_road_types st)
    else st
  else st.

Definition environments_block (F : filters) (it : intervention)
  (st : rank_state) : rank_state :=
  if nonempty_list (environments F) then
    let overlap :=
      list_overlap (environments F) (get_list (it_environments it)) in
    if (0 <? length (environments F))%nat then
      let s := Binary64.mul W_environments
                 (Binary64.int_truediv (Z.of_nat overlap)
                    (Z.of_nat (distinct_count (environments F)))) in
      let st := add_score s st in
      if (0 <? overlap)%nat
      then add_reason "Suitable for the described environment" st
      else st
    else st
  else st.

Definition speed_block (F : filters) (it : intervention) (st : rank_state)
  : rank_state :=
  if is_not_None (speed_kmh F) && truthy_list (it_suitable_speed_range it)
  then
    if speed_in_range (speed_kmh F) (it_suitable_speed_range it)
    then add_reason "Effective within given speed range"
           (add_score W_speed st)
    else st
  else st.

Definition urban_rural_block (F : filters) (it : intervention)
  (st : rank_state) : rank_state :=
  if truthy_string (urban_rural F) && truthy_list (it_urban_rural it) then
    if bool_decide (normalize (default EmptyString (urban_rural F))
                    ∈ normalize <$> get_list (it_urban_rural it))
    then add_reason "Designed for the specified context (urban/rural)"
           (add_score W_urban_rural st)
    else st
  else st.

(** The loop body up to the [append]: the state after the five blocks. *)
Definition score_state (F : filters) (it : intervention) : rank_state :=
  urban_rural_block F it
    (speed_block F it
       (environments_block F it
          (road_type_block F it
             (issues_block F it (Binary64.zero, []))))).

Definition score_item (F : filters) (it : intervention) : ranked_item :=
  let st := score_state F it in
  {| item := it; _score := Binary64.round4 (fst st); _reasons := snd st |}.

(** [list.sort(key=..., reverse=True)]: a stable sort into descending key
    order.  An element is placed before the first one whose key is not
    greater than its own, and the list is built from its right end, so
    equal keys stay in input order. *)
Fixpoint insert_desc {A} (key : A -> Binary64.float) (x : A) (l : list A)
  : list A :=
  match l with
  | [] => [x]
  | y :: l' =>
      if Binary64.ltb (key x) (key y)
      then y :: insert_desc key x l'
      else x :: l
  end.

Definition sort_desc {A} (key : A -> Binary64.float) (l : list A) : list A :=
  foldr (insert_desc key) [] l.

Definition rank_interventions (interventions : list intervention)
  (F : filters) : list ranked_item :=
  sort_desc _score (score_item F <$> interventions).

(** ** The free-text parser *)

(** What a function returns, or the [ValueError] it raises. *)
Inductive outcome (A : Type) : Type :=
  | Returns (a : A)
  | ValueError.
Arguments Returns {A} a.
Arguments ValueError {A}.

(** The [for token in ...] loop of the speed extraction. *)
Fixpoint scan_speed (tokens : list string) : outcome (option Z) :=
  match tokens with
  | [] => Returns None
  | token :: rest =>
      if PyStr.isdigit token then
        match PyStr.int token with
        | None => ValueError
        | Some n =>
            if ((10 <=? n) && (n <=? 130))%Z
            then Returns (Some n)
            else scan_speed rest
        end
      else scan_speed rest
  end.

Definition parse_speed (p : string) : outcome (option Z) :=
  scan_speed (PyStr.split (PyStr.replace "km/h" "kmh" p)).

Definition parse_free_text (prompt : string) : outcome filters :=
  let p := normalize prompt in
  let road_type := head (filter (fun rt => PyStr.contains rt p) KNOWN_ROAD_TYPES) in
  let urban_rural :=
    if PyStr.contains "urban" p then Some "urban"
    else if PyStr.contains "rural" p then Some "rural"
    else None in
  let issues := filter (fun kw => PyStr.contains kw p) KNOWN_ISSUES in
  let environments := filter (fun kw => PyStr.contains kw p) KNOWN_ENVIRONMENTS in
  match parse_speed p with
  | ValueError => ValueError
  | Returns speed_kmh =>
      Returns {| road_type := road_type;
                 issues := issues;
                 environments := environments;
                 speed_kmh := speed_kmh;
                 urban_rural := urban_rural |}
  end.

(** ** The recommendation endpoint *)

Record RecommendationRequest := {
  req_prompt : option string;
  req_road_type : option string;
  req_issues : list string;
  req_environments : list string;
  req_speed_kmh : option Z;
  req_urban_rural : option string;
  req_top_k : Z
}.

(** The merge loop of [recommend], key by key: a list-valued key takes
    the parsed value when the explicit list is empty, any other key when
    the explicit value is [None]. *)
Definition merge_multi (explicit parsed : list string) : list string :=
  if negb (nonempty_list explicit) then parsed else explicit.

Definition merge_single {A} (explicit parsed : option A) : option A :=
  match explicit with
  | None => parsed
  | Some _ => explicit
  end.

Definition merge_filters (explicit parsed : filters) : filters :=
  {| road_type := merge_single (road_type explicit) (road_type parsed);
     issues := merge_multi (issues explicit) (issues parsed);
     environments := merge_multi (environments explicit) (environments parsed);
     speed_kmh := merge_single (speed_kmh explicit) (speed_kmh parsed);
     urban_rural := merge_single (urban_rural explicit) (urban_rural parsed) |}.

Definition request_filters (req : RecommendationRequest) : filters :=
  {| road_type := req_road_type req;
     issues := req_issues req;
     environments := req_environments req;
     speed_kmh := req_speed_kmh req;
     urban_rural := req_urban_rural req |}.

(** [filters] after the [if req.prompt:] block. *)
Definition merged_filters (req : RecommendationRequest) : outcome filters :=
  if truthy_string (req_prompt req) then
    match parse_free_text (default EmptyString (req_prompt req)) with
    | ValueError => ValueError
    | Returns parsed => Returns (merge_filters (request_filters req) parsed)
    end
  else Returns (request_filters req).

Record ref_note := {
  note_source : string;
  note_title : string;
  note_url : option string;
  note_excerpt : option string
}.

(** [x or None] on an optional string. *)
Definition or_none (s : option string) : option string :=
  if truthy_string s then s else None.

Definition make_ref_note (r : reference) : ref_note :=
  {| note_source := default EmptyString (ref_source r);
     note_title := default EmptyString (ref_title r);
     note_url := or_none (ref_url r);
     note_excerpt := ref_excerpt r |}.

Record applicability := {
  app_road_types : list string;
  app_issues : list string;
  app_environments : list string;
  app_suitable_speed_range : option (list Z);
  app_urban_rural : option (list string)
}.

Record result_item := {
  res_id : string;
  res_name : string;
  res_description : string;
  res_score : Binary64.float;
  res_reasons : list string;
  res_applicability : applicability;
  res_references : list ref_note
}.

Record response := {
  filters_used : filters;
  count : nat;
  items : list result_item
}.

(** [max(1, min(req.top_k, 50))]. *)
Definition clamp_top_k (top_k : Z) : Z := Z.max 1 (Z.min top_k 50).

Definition make_result (it : ranked_item) : result_item :=
  let refs := get_list (it_references (item it)) in
  {| res_id := it_id (item it);
     res_name := it_name (item it);
     res_description := it_description (item it);
     res_score := _score it;
     res_reasons := _reasons it;
     res_applicability :=
       {| app_road_types := get_list (it_road_types (item it));
          app_issues := get_list (it_issues (item it));
          app_environments := get_list (it_environments (item it));
          app_suitable_speed_range := it_suitable_speed_range (item it);
          app_urban_rural := it_urban_rural (item it) |};
     res_references := make_ref_note <$> take 3 refs |}.

(** [recommend], given the documents that the store returns. *)
Definition recommend (req : RecommendationRequest) (docs : list intervention)
  : outcome response :=
  match merged_filters req with
  | ValueError => ValueError
  | Returns F =>
      let ranked := rank_interventions docs F in
      let top := take (Z.to_nat (clamp_top_k (req_top_k req))) ranked in
      let results := make_result <$> top in
      Returns {| filters_used := F;
                 count := length results;
                 items := results |}
  end.

(** ** Vocabulary of the statements *)

(** [x] comes no later than [y] in descending key order. *)
Definition desc {A} (key : A -> Binary64.float) (x y : A) : Prop :=
  (key y <= key x)%Z.

(** What a block does to the score: nothing ([None]), or [score += s]. *)
Definition apply_amount (amount : option Binary64.float)
  (score : Binary64.float) : Binary64.float :=
  match amount with
  | Some s => Binary64.add score s
  | None => score
  end.

Definition positive_amount (amount : option Binary64.float) : bool :=
  match amount with
  | Some s => (0 <? s)%Z
  | None => false
  end.

Definition amount_within (amount : option Binary64.float)
  (w : Binary64.float) : Prop :=
  match amount with
  | Some s => (0 <= s <= w)%Z
  | None => True
  end.

(** From any state, the block adds [amount] to the score. *)
Definition block_adds (block : rank_state -> rank_state)
  (amount : option Binary64.float) : Prop :=
  forall st, fst (block st) = apply_amount amount (fst st).

(** From any state, the block adds [amount] to the score, and appends
    [reason] (and nothing else) exactly when [amount] is positive. *)
Definition block_explains (block : rank_state -> rank_state)
  (amount : option Binary64.float) (reason : string) : Prop :=
  forall st,
    block st = (apply_amount amount (fst st),
                snd st ++ (if positive_amount amount then [reason] else [])).

(** The amounts of the five blocks, read off the source. *)
Definition ratio_amount (w : Binary64.float) (labels record_labels : list string)
  : option Binary64.float :=
  if nonempty_list labels
  then Some (Binary64.mul w
               (Binary64.int_truediv
                  (Z.of_nat (list_overlap labels record_labels))
                  (Z.of_nat (distinct_count labels))))
  else None.

Definition issues_amount (F : filters) (it : intervention) :=
  ratio_amount W_issues (issues F) (get_list (it_issues it)).

Definition environments_amount (F : filters) (it : intervention) :=
  ratio_amount W_environments (environments F) (get_list (it_environments it)).

Definition flat_amount (w : Binary64.float) (matched : bool)
  : option Binary64.float :=
  if matched then Some w else None.

Definition road_type_matched (F : filters) (it : intervention) : bool :=
  truthy_string (road_type F)
  && (0 <? list_overlap [default EmptyString (road_type F)]
                        (get_list (it_road_types it)))%nat.

Definition speed_matched (F : filters) (it : intervention) : bool :=
  is_not_None (speed_kmh F) && truthy_list (it_suitable_speed_range it)
  && speed_in_range (speed_kmh F) (it_suitable_speed_range it).

Definition urban_rural_matched (F : filters) (it : intervention) : bool :=
  truthy_string (urban_rural F) && truthy_list (it_urban_rural it)
  && bool_decide (normalize (default EmptyString (urban_rural F))
                  ∈ normalize <$> get_list (it_urban_rural it)).

(** The invariant of the loop body: the score is not negative, and it is
    positive exactly when a reason has been recorded. *)
Definition reasons_iff_positive (st : rank_state) : Prop :=
  (0 <= fst st)%Z /\ (snd st <> [] <-> (0 < fst st)%Z).

(** ** Vocabulary of the further statements *)




(** No field of the filter is set, as the five blocks test it. *)
Definition no_filter (F : filters) : Prop :=
  truthy_string (road_type F) = false /\ issues F = []
  /\ environments F = [] /\ speed_kmh F = None
  /\ truthy_string (urban_rural F) = false.

Definition normalize_all (labels : option (list string))
  : option (list string) :=
  match labels with
  | Some l => Some (normalize <$> l)
  | None => None
  end.

(** The record with each of its labels normalised. *)
Definition normalize_labels (it : intervention) : intervention :=
  {| it_id := it_id it;
     it_name := it_name it;
     it_description := it_description it;
     it_road_types := normalize_all (it_road_types it);
     it_issues := normalize_all (it_issues it);
     it_environments := normalize_all (it_environments it);
     it_suitable_speed_range := it_suitable_speed_range it;
     it_urban_rural := normalize_all (it_urban_rural it);
     it_references := it_references it |}.

(** [it'] carries at least the labels of [it], up to normalisation, and
    the same speed range. *)
Definition covers (it it' : intervention) : Prop :=
  normalized_set (get_list (it_issues it))
    ⊆ normalized_set (get_list (it_issues it'))
  /\ normalized_set (get_list (it_road_types it))
       ⊆ normalized_set (get_list (it_road_types it'))
  /\ normalized_set (get_list (it_environments it))
       ⊆ normalized_set (get_list (it_environments it'))
  /\ normalized_set (get_list (it_urban_rural it))
       ⊆ normalized_set (get_list (it_urban_rural it'))
  /\ it_suitable_speed_range it = it_suitable_speed_range it'.

(** One amount is no larger than another; adding nothing is no larger
    than adding a non-negative amount. *)
Definition amount_le (a a' : option Binary64.float) : Prop :=
  match a, a' with
  | None, None => True
  | None, Some s' => (0 <= s')%Z
  | Some s, Some s' => (0 <= s <= s')%Z
  | Some _, None => False
  end.

(** The record matches every field of a filter that sets all five. *)
Definition fully_matches (F : filters) (it : intervention) : Prop :=
  issues F <> []
  /\ normalized_set (issues F) ⊆ normalized_set (get_list (it_issues it))
  /\ environments F <> []
  /\ normalized_set (environments F)
       ⊆ normalized_set (get_list (it_environments it))
  /\ road_type_matched F it = true
  /\ speed_matched F it = true
  /\ urban_rural_matched F it = true.

(** The request with another [top_k]. *)
Definition with_top_k (req : RecommendationRequest) (k : Z)
  : RecommendationRequest :=
  {| req_prompt := req_prompt req;
     req_road_type := req_road_type req;
     req_issues := req_issues req;
     req_environments := req_environments req;
     req_speed_kmh := req_speed_kmh req;
     req_urban_rural := req_urban_rural req;
     req_top_k := k |}.

(** The filter with no field set. *)
Definition unset_filters : filters :=
  {| road_type := None; issues := []; environments := [];
     speed_kmh := None; urban_rural := None |}.

(** ** Facts about binary64 rounding *)

Module Binary64Facts.
Import Binary64.
Local Open Scope Z_scope.

Lemma scale_pos : 0 < scale.
Proof. unfold scale. apply Z.pow_pos_nonneg; lia. Qed.

(** The rounded integer is within one half of the quotient, and a tie is
    only ever resolved to an even integer. *)
Lemma round_half_even_spec (n d : Z) :
  0 < d ->
  let m := round_half_even n d in
  (2 * m - 1) * d <= 2 * n <= (2 * m + 1) * d
  /\ (2 * n = (2 * m + 1) * d -> Z.even m = true)
  /\ (2 * n = (2 * m - 1) * d -> Z.even m = true).
Proof.
  intros Hd m. subst m. unfold round_half_even.
  pose proof (Z.div_mod n d ltac:(lia)) as Hn.
  pose proof (Z.mod_pos_bound n d Hd) as Hr.
  set (q := n / d) in *. set (r := n mod d) in *.
  destruct (Z.compare_spec (2 * r) d) as [He | Hl | Hg].
  - destruct (Z.even q) eqn:Hq.
    + repeat split; try nia. intros. exact Hq.
    + repeat split; try nia. intros _.
      rewrite Z.even_add, Hq. reflexivity.
  - repeat split; nia.
  - repeat split; nia.
Qed.

Lemma round_half_even_mono (n1 d1 n2 d2 : Z) :
  0 < d1 -> 0 < d2 -> n1 * d2 <= n2 * d1 ->
  round_half_even n1 d1 <= round_half_even n2 d2.
Proof.
  intros H1 H2 Hle.
  destruct (round_half_even_spec n1 d1 H1) as ([Hlo1 _] & _ & Htie1).
  destruct (round_half_even_spec n2 d2 H2) as ([_ Hhi2] & Htie2 & _).
  set (m1 := round_half_even n1 d1) in *.
  set (m2 := round_half_even n2 d2) in *.
  destruct (Z_le_gt_dec m1 m2) as [|Hgt]; [assumption|exfalso].
  assert (Hchain1 : (2 * m1 - 1) * (d1 * d2) <= 2 * (n1 * d2)) by nia.
  assert (Hchain2 : 2 * (n2 * d1) <= (2 * m2 + 1) * (d1 * d2)) by nia.
  assert (Hdd : 0 < d1 * d2) by nia.
  assert (Hm : m1 = m2 + 1) by nia.
  assert (E1 : 2 * n1 = (2 * m1 - 1) * d1) by nia.
  assert (E2 : 2 * n2 = (2 * m2 + 1) * d2) by nia.
  specialize (Htie1 E1). specialize (Htie2 E2).
  rewrite Hm, Z.even_add, Htie2 in Htie1. discriminate.
Qed.

Lemma round_half_even_exact (k d : Z) : 0 < d -> round_half_even (k * d) d = k.
Proof.
  intros Hd. unfold round_half_even.
  rewrite Z.div_mul, Z.mod_mul by lia.
  destruct (Z.compare_spec (2 * 0) d); [lia|reflexivity|lia].
Qed.

Lemma div_mono_frac (a1 b1 a2 b2 : Z) :
  0 < b1 -> 0 < b2 -> a1 * b2 <= a2 * b1 -> a1 / b1 <= a2 / b2.
Proof.
  intros H1 H2 Hle.
  apply Z.div_le_lower_bound; [assumption|].
  pose proof (Z.mul_div_le a1 b1 H1). nia.
Qed.

Lemma shift_of_nonneg (a b : Z) : 0 <= shift_of a b.
Proof. unfold shift_of. lia. Qed.

Lemma shift_of_mono (a1 b1 a2 b2 : Z) :
  0 < b1 -> 0 < b2 -> a1 * b2 <= a2 * b1 -> shift_of a1 b1 <= shift_of a2 b2.
Proof.
  intros H1 H2 Hle. unfold shift_of.
  pose proof (Z.log2_le_mono _ _ (div_mono_frac a1 b1 a2 b2 H1 H2 Hle)). lia.
Qed.

(** Below the chosen shift the significand has at most 53 bits. *)
Lemma shift_of_upper (a b : Z) :
  0 <= a -> 0 < b -> a <= 2 ^ 53 * (b * 2 ^ shift_of a b).
Proof.
  intros Ha Hb.
  pose proof (shift_of_nonneg a b) as Hi.
  assert (Hq : 0 <= a / b) by (apply Z.div_pos; lia).
  assert (Hlt : a / b < 2 ^ (shift_of a b + 53)).
  { destruct (Z.eq_dec (a / b) 0) as [E|E].
    - rewrite E. apply Z.pow_pos_nonneg; lia.
    - pose proof (Z.log2_spec (a / b) ltac:(lia)) as [_ Hs].
      eapply Z.lt_le_trans; [exact Hs|].
      apply Z.pow_le_mono_r; [lia|]. unfold shift_of. lia. }
  rewrite Z.pow_add_r in Hlt by lia.
  pose proof (Z.div_mod a b ltac:(lia)) as Hab.
  pose proof (Z.mod_pos_bound a b Hb) as Hr.
  assert (0 < 2 ^ shift_of a b) by (apply Z.pow_pos_nonneg; lia).
  nia.
Qed.

(** Once bits are dropped, the significand has its top bit set. *)
Lemma shift_of_lower (a b : Z) :
  0 < b -> 0 < shift_of a b -> 2 ^ 52 * (b * 2 ^ shift_of a b) <= a.
Proof.
  intros Hb Hi.
  assert (Hl : shift_of a b = Z.log2 (a / b) - 52) by (unfold shift_of in *; lia).
  assert (Hq : 0 < a / b).
  { destruct (Z_lt_le_dec 0 (a / b)); [assumption|].
    rewrite Z.log2_nonpos in Hl by assumption. lia. }
  pose proof (Z.log2_spec (a / b) Hq) as [Hs _].
  replace (Z.log2 (a / b)) with (shift_of a b + 52) in Hs by lia.
  rewrite Z.pow_add_r in Hs by lia.
  pose proof (Z.mul_div_le a b Hb).
  assert (0 < 2 ^ shift_of a b) by (apply Z.pow_pos_nonneg; lia).
  nia.
Qed.

Lemma round_pos_mono (a1 b1 a2 b2 : Z) :
  0 <= a1 -> 0 < b1 -> 0 < b2 -> a1 * b2 <= a2 * b1 ->
  round_pos a1 b1 <= round_pos a2 b2.
Proof.
  intros Ha1 H1 H2 Hle.
  assert (Ha2 : 0 <= a2) by nia.
  pose proof (shift_of_mono a1 b1 a2 b2 H1 H2 Hle) as Hi.
  pose proof (shift_of_nonneg a1 b1) as Hi1.
  unfold round_pos.
  set (i1 := shift_of a1 b1) in *. set (i2 := shift_of a2 b2) in *.
  assert (P1 : 0 < 2 ^ i1) by (apply Z.pow_pos_nonneg; lia).
  assert (P2 : 0 < 2 ^ i2) by (apply Z.pow_pos_nonneg; lia).
  destruct (Z.eq_dec i1 i2) as [E|NE].
  - rewrite <- E. apply Z.mul_le_mono_nonneg_r; [lia|].
    apply round_half_even_mono; nia.
  - assert (Hlt : i1 < i2) by lia.
    pose proof (shift_of_upper a1 b1 Ha1 H1) as Hup. fold i1 in Hup.
    pose proof (shift_of_lower a2 b2 H2 ltac:(fold i2; lia)) as Hlo. fold i2 in Hlo.
    assert (M1 : round_half_even a1 (b1 * 2 ^ i1) <= 2 ^ 53).
    { pose proof (round_half_even_mono a1 (b1 * 2 ^ i1)
                    (2 ^ 53 * (b1 * 2 ^ i1)) (b1 * 2 ^ i1)) as M.
      rewrite round_half_even_exact in M by nia. apply M; nia. }
    assert (M2 : 2 ^ 52 <= round_half_even a2 (b2 * 2 ^ i2)).
    { pose proof (round_half_even_mono (2 ^ 52 * (b2 * 2 ^ i2)) (b2 * 2 ^ i2)
                    a2 (b2 * 2 ^ i2)) as M.
      rewrite round_half_even_exact in M by nia. apply M; nia. }
    assert (Hpow : 2 ^ 53 * 2 ^ i1 <= 2 ^ 52 * 2 ^ i2).
    { replace (2 ^ 53) with (2 ^ 52 * 2 ^ 1) by reflexivity.
      rewrite <- Z.mul_assoc, <- Z.pow_add_r by lia.
      apply Z.mul_le_mono_nonneg_l; [lia|].
      apply Z.pow_le_mono_r; lia. }
    nia.
Qed.

Lemma round_pos_zero (b : Z) : 0 < b -> round_pos 0 b = 0.
Proof.
  intros Hb. unfold round_pos, shift_of. rewrite Z.div_0_l by lia.
  change (Z.max 0 (Z.log2 0 - 52)) with 0. rewrite Z.pow_0_r, Z.mul_1_r.
  pose proof (round_half_even_exact 0 b Hb) as E. rewrite Z.mul_0_l in E.
  rewrite Z.mul_1_r. exact E.
Qed.

Lemma round_nonneg_eq (a b : Z) : 0 <= a -> 0 < b -> round a b = round_pos a b.
Proof.
  intros Ha Hb. unfold round.
  destruct (Z.eq_dec a 0) as [->|].
  - change (Z.abs 0) with 0. rewrite round_pos_zero by assumption. reflexivity.
  - rewrite Z.sgn_pos, Z.abs_eq by lia. lia.
Qed.

Lemma round_pos_nonneg (a b : Z) : 0 <= a -> 0 < b -> 0 <= round_pos a b.
Proof.
  intros Ha Hb. rewrite <- (round_pos_zero b Hb).
  apply round_pos_mono; lia.
Qed.

(** Rounding to nearest is monotone: it never reorders two values. *)
Lemma round_mono (a1 b1 a2 b2 : Z) :
  0 < b1 -> 0 < b2 -> a1 * b2 <= a2 * b1 -> round a1 b1 <= round a2 b2.
Proof.
  intros H1 H2 Hle.
  destruct (Z_lt_le_dec a1 0) as [N1|P1]; destruct (Z_lt_le_dec a2 0) as [N2|P2].
  - unfold round. rewrite !Z.sgn_neg, !Z.abs_neq by lia.
    pose proof (round_pos_mono (- a2) b2 (- a1) b1 ltac:(lia) H2 H1 ltac:(nia)). lia.
  - unfold round at 1. rewrite Z.sgn_neg, Z.abs_neq by lia.
    rewrite round_nonneg_eq by lia.
    pose proof (round_pos_nonneg (- a1) b1 ltac:(lia) H1).
    pose proof (round_pos_nonneg a2 b2 P2 H2). lia.
  - nia.
  - rewrite !round_nonneg_eq by lia. apply round_pos_mono; lia.
Qed.

Lemma round_zero (b : Z) : 0 < b -> round 0 b = 0.
Proof. intros. unfold round. reflexivity. Qed.

Lemma round_nonneg (a b : Z) : 0 <= a -> 0 < b -> 0 <= round a b.
Proof.
  intros Ha Hb. rewrite <- (round_zero b Hb). apply round_mono; lia.
Qed.

End Binary64Facts.

Module Binary64Ops.
Import Binary64 Binary64Facts.
Local Open Scope Z_scope.

(** The shape of a rounded value: a significand of at most 53 bits,
    normalised as soon as low-order bits have been dropped. *)
Lemma round_pos_shape (a b : Z) :
  0 <= a -> 0 < b ->
  exists m i, round_pos a b = m * 2 ^ i /\ 0 <= i /\ 0 <= m <= 2 ^ 53
              /\ (0 < i -> 2 ^ 52 <= m).
Proof.
  intros Ha Hb.
  pose proof (shift_of_nonneg a b) as Hi.
  assert (P : 0 < 2 ^ shift_of a b) by (apply Z.pow_pos_nonneg; lia).
  exists (round_half_even a (b * 2 ^ shift_of a b)), (shift_of a b).
  split; [reflexivity|]. split; [assumption|]. split; [split|].
  - pose proof (round_half_even_mono (0 * (b * 2 ^ shift_of a b))
                  (b * 2 ^ shift_of a b) a (b * 2 ^ shift_of a b)) as M.
    rewrite round_half_even_exact in M by nia. apply M; nia.
  - pose proof (round_half_even_mono a (b * 2 ^ shift_of a b)
                  (2 ^ 53 * (b * 2 ^ shift_of a b)) (b * 2 ^ shift_of a b)) as M.
    rewrite round_half_even_exact in M by nia.
    pose proof (shift_of_upper a b Ha Hb). apply M; nia.
  - intros Hpos.
    pose proof (round_half_even_mono (2 ^ 52 * (b * 2 ^ shift_of a b))
                  (b * 2 ^ shift_of a b) a (b * 2 ^ shift_of a b)) as M.
    rewrite round_half_even_exact in M by nia.
    pose proof (shift_of_lower a b Hb Hpos). apply M; nia.
Qed.

Lemma round_pos_exact (m i : Z) :
  0 <= i -> 0 <= m <= 2 ^ 53 -> (0 < i -> 2 ^ 52 <= m) ->
  round_pos (m * 2 ^ i) 1 = m * 2 ^ i.
Proof.
  intros Hi Hm Hnorm.
  assert (P : 0 < 2 ^ i) by (apply Z.pow_pos_nonneg; lia).
  destruct (Z.eq_dec m 0) as [->|Hm0].
  { rewrite Z.mul_0_l. apply round_pos_zero. lia. }
  unfold round_pos, shift_of. rewrite Z.div_1_r, Z.mul_1_l.
  rewrite Z.log2_mul_pow2 by lia.
  destruct (Z.eq_dec m (2 ^ 53)) as [->|Hm53].
  - rewrite Z.log2_pow2 by lia.
    replace (Z.max 0 (i + 53 - 52)) with (i + 1) by lia.
    replace (2 ^ 53 * 2 ^ i) with (2 ^ 52 * 2 ^ (i + 1)).
    + rewrite round_half_even_exact; [reflexivity|].
      apply Z.pow_pos_nonneg; lia.
    + rewrite (Z.pow_add_r 2 i 1) by lia.
      change (2 ^ 53) with (2 ^ 52 * 2 ^ 1). ring.
  - assert (Hlog : Z.log2 m < 53) by (apply Z.log2_lt_pow2; lia).
    destruct (Z.eq_dec i 0) as [->|Hi0].
    + replace (Z.max 0 (0 + Z.log2 m - 52)) with 0 by lia.
      rewrite round_half_even_exact by lia. reflexivity.
    + assert (52 <= Z.log2 m) by (apply Z.log2_le_pow2; lia).
      replace (Z.max 0 (i + Z.log2 m - 52)) with i by lia.
      rewrite round_half_even_exact by lia. reflexivity.
Qed.

(** Rounding is idempotent: every result of an operation is a double. *)
Lemma round_representable (a b : Z) : 0 < b -> representable (round a b).
Proof.
  intros Hb. unfold representable.
  assert (Hpos : forall a', 0 <= a' -> round (round_pos a' b) 1 = round_pos a' b).
  { intros a' Ha'.
    destruct (round_pos_shape a' b Ha' Hb) as (m & i & E & Hi & Hm & Hn).
    rewrite round_nonneg_eq by (try apply round_pos_nonneg; lia).
    rewrite E. apply round_pos_exact; assumption. }
  destruct (Z_lt_le_dec a 0) as [Hneg|Hnn].
  - pose proof (round_pos_nonneg (- a) b ltac:(lia) Hb) as Hv.
    pose proof (Hpos (- a) ltac:(lia)) as Hr.
    assert (E : round a b = - round_pos (- a) b).
    { unfold round. rewrite Z.sgn_neg, Z.abs_neq by lia. lia. }
    rewrite E. set (v := round_pos (- a) b) in *.
    destruct (Z.eq_dec v 0) as [->|]; [reflexivity|].
    unfold round. rewrite Z.sgn_neg, Z.abs_neq, Z.opp_involutive by lia.
    rewrite round_nonneg_eq in Hr by lia. lia.
  - rewrite (round_nonneg_eq a b) by assumption. apply Hpos. assumption.
Qed.

Lemma add_representable (x y : float) : representable (add x y).
Proof. apply round_representable. lia. Qed.

Lemma mul_representable (x y : float) : representable (mul x y).
Proof. apply round_representable, scale_pos. Qed.

Lemma add_zero_r (x : float) : representable x -> add x zero = x.
Proof. intros Hx. unfold add, zero. rewrite Z.add_0_r. exact Hx. Qed.

Lemma add_mono (x1 y1 x2 y2 : float) :
  x1 <= x2 -> y1 <= y2 -> add x1 y1 <= add x2 y2.
Proof. intros. apply round_mono; lia. Qed.

Lemma add_nonneg (x y : float) : 0 <= x -> 0 <= y -> 0 <= add x y.
Proof. intros. apply round_nonneg; lia. Qed.

(** A sum of a non-negative and a positive double is positive: the
    smallest positive double is one unit, and one unit does not round
    to zero. *)
Lemma add_pos (x y : float) : 0 <= x -> 0 < y -> 0 < add x y.
Proof.
  intros Hx Hy.
  pose proof (round_mono 1 1 (x + y) 1 ltac:(lia) ltac:(lia) ltac:(lia)) as M.
  change (round 1 1) with 1 in M. unfold add. lia.
Qed.

Lemma add_zero_pos (sc : float) :
  0 <= sc -> (0 < add sc 0 <-> 0 < sc).
Proof.
  intros Hsc. unfold add. rewrite Z.add_0_r. split.
  - intros Hp. destruct (Z.eq_dec sc 0) as [->|]; [|lia].
    change (round 0 1) with 0 in Hp. lia.
  - intros Hp.
    pose proof (round_mono 1 1 sc 1 ltac:(lia) ltac:(lia) ltac:(lia)) as M.
    change (round 1 1) with 1 in M. lia.
Qed.

Lemma mul_mono (x1 y1 x2 y2 : float) :
  0 <= x1 <= x2 -> 0 <= y1 <= y2 -> mul x1 y1 <= mul x2 y2.
Proof.
  intros. pose proof scale_pos. apply round_mono; try lia.
  apply Z.mul_le_mono_nonneg_r; [lia|]. nia.
Qed.

Lemma mul_nonneg (x y : float) : 0 <= x -> 0 <= y -> 0 <= mul x y.
Proof. intros. apply round_nonneg; [nia|apply scale_pos]. Qed.

Lemma mul_zero_r (x : float) : mul x zero = zero.
Proof. unfold mul, zero. rewrite Z.mul_0_r. reflexivity. Qed.

(** Multiplying by a value that is at most 1.0 does not increase a
    non-negative double. *)
Lemma mul_le_l (w x : float) :
  representable w -> 0 <= w -> 0 <= x <= one -> mul w x <= w.
Proof.
  intros Hw Hw0 Hx. pose proof scale_pos.
  unfold representable in Hw. rewrite <- Hw at 2. apply round_mono; try lia. unfold one in Hx. nia.
Qed.

Lemma int_truediv_zero (n : Z) : int_truediv 0 n = zero.
Proof. reflexivity. Qed.

Lemma int_truediv_nonneg (k n : Z) : 0 <= k -> 0 < n -> 0 <= int_truediv k n.
Proof. intros. pose proof scale_pos. apply round_nonneg; nia. Qed.

Lemma one_representable : representable one.
Proof. vm_compute. reflexivity. Qed.

Lemma int_truediv_le_one (k n : Z) : k <= n -> 0 < n -> int_truediv k n <= one.
Proof.
  intros Hk Hn. pose proof scale_pos.
  pose proof one_representable as E. unfold representable in E.
  rewrite <- E. apply round_mono; try lia. unfold one. nia.
Qed.

(** A quotient of machine-sized positive integers does not underflow. *)
Lemma int_truediv_lower (k n : Z) :
  1 <= k -> 0 < n <= 2 ^ 63 -> 2 ^ 1011 <= int_truediv k n.
Proof.
  intros Hk Hn. pose proof scale_pos.
  assert (E : round scale (2 ^ 63) = 2 ^ 1011) by (vm_compute; reflexivity).
  rewrite <- E. apply round_mono; try lia. nia.
Qed.

Lemma round4_mono (x y : float) : x <= y -> round4 x <= round4 y.
Proof.
  intros Hxy. pose proof scale_pos. unfold round4.
  assert (M : round_half_even (x * 10000) scale
              <= round_half_even (y * 10000) scale)
    by (apply round_half_even_mono; nia).
  apply round_mono; nia.
Qed.

Lemma round4_zero : round4 0 = 0.
Proof. vm_compute. reflexivity. Qed.

Lemma round4_one : round4 one = one.
Proof. vm_compute. reflexivity. Qed.

End Binary64Ops.

Import Binary64Facts Binary64Ops.

(** ** The stable descending sort *)

Section SortDesc.
Context {A : Type} (key : A -> Binary64.float).




Lemma insert_desc_perm (x : A) (l : list A) : insert_desc key x l ≡ₚ x :: l.
Proof.
  induction l as [|y l IH]; simpl; [reflexivity|].
  destruct (Binary64.ltb (key x) (key y)); [|reflexivity].
  rewrite IH. apply Permutation_swap.
Qed.

Lemma sort_desc_perm (l : list A) : sort_desc key l ≡ₚ l.
Proof.
  induction l as [|x l IH]; simpl; [reflexivity|].
  unfold sort_desc in *. simpl. rewrite insert_desc_perm, IH. reflexivity.
Qed.

Lemma insert_desc_Forall (P : A -> Prop) (x : A) (l : list A) :
  P x -> Forall P l -> Forall P (insert_desc key x l).
Proof.
  intros Hx Hl. rewrite insert_desc_perm. constructor; assumption.
Qed.

Lemma insert_desc_sorted (x : A) (l : list A) :
  StronglySorted (desc key) l -> StronglySorted (desc key) (insert_desc key x l).
Proof.
  induction 1 as [|y l Hs IH Hy]; simpl.
  - repeat constructor.
  - unfold Binary64.ltb. destruct (Z.ltb_spec (key x) (key y)) as [Hlt|Hge].
    + constructor; [exact IH|].
      apply insert_desc_Forall; [unfold desc; lia|exact Hy].
    + constructor; [constructor; assumption|].
      constructor; [exact Hge|].
      eapply Forall_impl; [exact Hy|]. unfold desc. intros z Hz. simpl in Hz. lia.
Qed.

Lemma sort_desc_sorted (l : list A) : StronglySorted (desc key) (sort_desc key l).
Proof.
  induction l as [|x l IH]; [constructor|].
  apply insert_desc_sorted, IH.
Qed.

(** Insertion never moves an element past one of the same key. *)
Lemma filter_insert_desc (v : Binary64.float) (x : A) (l : list A) :
  filter (fun a => key a = v) (insert_desc key x l)
  = filter (fun a => key a = v) (x :: l).
Proof.
  induction l as [|y l IH]; simpl; [reflexivity|].
  unfold Binary64.ltb. destruct (Z.ltb_spec (key x) (key y)) as [Hlt|Hge];
    [|reflexivity].
  rewrite (filter_cons _ y), IH, !filter_cons.
  repeat case_decide; try reflexivity. lia.
Qed.

Lemma filter_sort_desc (v : Binary64.float) (l : list A) :
  filter (fun a => key a = v) (sort_desc key l)
  = filter (fun a => key a = v) l.
Proof.
  induction l as [|x l IH]; [reflexivity|].
  change (sort_desc key (x :: l)) with (insert_desc key x (sort_desc key l)).
  rewrite filter_insert_desc, !filter_cons, IH. reflexivity.
Qed.

End SortDesc.

(** C1. The output of [rank_interventions] holds the input records, each
    with its score, in non-increasing order of score, and the records of
    any one score appear in the order they have in the input (the sort is
    stable). *)
Theorem rank_interventions_sorted_stable
  (interventions : list intervention) (F : filters) :
  let ranked := rank_interventions interventions F in
  StronglySorted (fun x y => (_score y <= _score x)%Z) ranked
  /\ ranked ≡ₚ (score_item F <$> interventions)
  /\ (forall v : Binary64.float,
        item <$> filter (fun x => _score x = v) ranked
        = filter (fun it => _score (score_item F it) = v) interventions).
Proof.
  unfold rank_interventions. split; [|split].
  - apply (sort_desc_sorted _score).
  - apply sort_desc_perm.
  - intros v. rewrite filter_sort_desc.
    induction interventions as [|it l IH]; [reflexivity|].
    rewrite fmap_cons, !filter_cons.
    case_decide; rewrite ?fmap_cons, IH; reflexivity.
Qed.

(** ** Label sets *)

Lemma elem_of_normalized_set (x : string) (l : list string) :
  x ∈ normalized_set l <-> exists a, a ∈ l /\ normalize a = x.
Proof.
  unfold normalized_set. rewrite elem_of_list_to_set, list_elem_of_fmap.
  split; intros (a & H1 & H2); exists a; auto.
Qed.

Lemma normalized_set_nil : normalized_set [] = ∅.
Proof. reflexivity. Qed.

Lemma distinct_count_pos (l : list string) :
  l <> [] -> (0 < distinct_count l)%nat.
Proof.
  intros Hl. destruct l as [|a l]; [congruence|].
  unfold distinct_count.
  assert (Hne : size (normalized_set (a :: l)) <> 0%nat).
  { apply size_non_empty_iff. intros He.
    assert (Hin : normalize a ∈ normalized_set (a :: l)).
    { apply elem_of_normalized_set. exists a. split; [left|reflexivity]. }
    rewrite He in Hin. set_solver. }
  lia.
Qed.

Lemma distinct_count_le_length (l : list string) :
  (distinct_count l <= length l)%nat.
Proof.
  unfold distinct_count, normalized_set.
  induction l as [|a l IH].
  - rewrite fmap_nil, list_to_set_nil, size_empty. reflexivity.
  - rewrite fmap_cons, list_to_set_cons, size_union_alt, size_singleton.
    simpl length.
    assert (Hsub : list_to_set (normalize <$> l) ∖ {[normalize a]}
                   ⊆ (list_to_set (normalize <$> l) : gset string))
      by apply subseteq_difference_l, reflexivity.
    apply subseteq_size in Hsub. lia.
Qed.

Lemma list_overlap_le (a b : list string) :
  (list_overlap a b <= distinct_count a)%nat.
Proof.
  unfold list_overlap, distinct_count. apply subseteq_size.
  apply intersection_subseteq_l.
Qed.

Lemma list_overlap_nil_r (a : list string) : list_overlap a [] = 0%nat.
Proof.
  unfold list_overlap. rewrite normalized_set_nil.
  rewrite intersection_empty_r_L. apply size_empty.
Qed.

Lemma list_overlap_singleton_pos (x : string) (b : list string) :
  (0 < list_overlap [x] b)%nat <-> normalize x ∈ normalized_set b.
Proof.
  unfold list_overlap. split.
  - intros Hp. apply size_pos_elem_of in Hp as (y & Hy).
    apply elem_of_intersection in Hy as [Hy1 Hy2].
    apply elem_of_normalized_set in Hy1 as (a & Ha & <-).
    apply list_elem_of_singleton in Ha. subst a. exact Hy2.
  - intros Hin.
    assert (Hne : size (normalized_set [x] ∩ normalized_set b) <> 0%nat).
    { apply size_non_empty_iff. intros He.
      assert (Hx : normalize x ∈ normalized_set [x] ∩ normalized_set b).
      { apply elem_of_intersection. split; [|exact Hin].
        apply elem_of_normalized_set. exists x. split; [left|reflexivity]. }
      rewrite He in Hx. set_solver. }
    lia.
Qed.

(** ** The five blocks *)

Lemma nonempty_list_true {A} (l : list A) : nonempty_list l = true <-> l <> [].
Proof. destruct l; simpl; split; congruence. Qed.

(** The issues and environments blocks share one shape. *)
Lemma ratio_block_eq (w : Binary64.float) (labels rec : list string)
  (reason : string) (st : rank_state) :
  (if nonempty_list labels then
     let overlap := list_overlap labels rec in
     if (0 <? length labels)%nat then
       let s := Binary64.mul w
                  (Binary64.int_truediv (Z.of_nat overlap)
                     (Z.of_nat (distinct_count labels))) in
       let st := add_score s st in
       if (0 <? overlap)%nat then add_reason reason st else st
     else st
   else st)
  = (apply_amount (ratio_amount w labels rec) (fst st),
     snd st ++ (if nonempty_list labels && (0 <? list_overlap labels rec)%nat
                then [reason] else [])).
Proof.
  unfold ratio_amount. destruct labels as [|a l]; simpl nonempty_list; cbv iota.
  - simpl. rewrite app_nil_r. destruct st; reflexivity.
  - change (0 <? length (a :: l))%nat with true. cbv iota zeta.
    destruct (0 <? list_overlap (a :: l) rec)%nat; simpl.
    + reflexivity.
    + rewrite app_nil_r. reflexivity.
Qed.

Lemma issues_block_eq (F : filters) (it : intervention) (st : rank_state) :
  issues_block F it st
  = (apply_amount (issues_amount F it) (fst st),
     snd st ++ (if nonempty_list (issues F)
                   && (0 <? list_overlap (issues F) (get_list (it_issues it)))%nat
                then [issues_reason (list_overlap (issues F) (get_list (it_issues it)))
                        (distinct_count (issues F))]
                else [])).
Proof. unfold issues_block, issues_amount. apply ratio_block_eq. Qed.

Lemma environments_block_eq (F : filters) (it : intervention) (st : rank_state) :
  environments_block F it st
  = (apply_amount (environments_amount F it) (fst st),
     snd st ++ (if nonempty_list (environments F)
                   && (0 <? list_overlap (environments F)
                              (get_list (it_environments it)))%nat
                then ["Suitable for the described environment"] else [])).
Proof. unfold environments_block, environments_amount. apply ratio_block_eq. Qed.

Lemma flat_block_eq (w : Binary64.float) (matched : bool) (reason : string)
  (st : rank_state) :
  (if matched then add_reason reason (add_score w st) else st)
  = (apply_amount (flat_amount w matched) (fst st),
     snd st ++ (if matched then [reason] else [])).
Proof.
  destruct matched; simpl; [reflexivity|].
  rewrite app_nil_r. destruct st; reflexivity.
Qed.

Lemma road_type_block_eq (F : filters) (it : intervention) (st : rank_state) :
  road_type_block F it st
  = (apply_amount (flat_amount W_road_types (road_type_matched F it)) (fst st),
     snd st ++ (if road_type_matched F it
                then ["Applicable to specified road type"] else [])).
Proof.
  rewrite <- flat_block_eq. unfold road_type_block, road_type_matched.
  destruct (truthy_string (road_type F)); reflexivity.
Qed.

Lemma speed_block_eq (F : filters) (it : intervention) (st : rank_state) :
  speed_block F it st
  = (apply_amount (flat_amount W_speed (speed_matched F it)) (fst st),
     snd st ++ (if speed_matched F it
                then ["Effective within given speed range"] else [])).
Proof.
  rewrite <- flat_block_eq. unfold speed_block, speed_matched.
  destruct (is_not_None (speed_kmh F) && truthy_list (it_suitable_speed_range it));
    reflexivity.
Qed.

Lemma urban_rural_block_eq (F : filters) (it : intervention) (st : rank_state) :
  urban_rural_block F it st
  = (apply_amount (flat_amount W_urban_rural (urban_rural_matched F it)) (fst st),
     snd st ++ (if urban_rural_matched F it
                then ["Designed for the specified context (urban/rural)"]
                else [])).
Proof.
  rewrite <- flat_block_eq. unfold urban_rural_block, urban_rural_matched.
  destruct (truthy_string (urban_rural F) && truthy_list (it_urban_rural it));
    reflexivity.
Qed.

(** ** The weights *)

Local Open Scope Z_scope.

Lemma weights_representable :
  Binary64.representable W_issues /\ Binary64.representable W_road_types
  /\ Binary64.representable W_environments /\ Binary64.representable W_speed
  /\ Binary64.representable W_urban_rural.
Proof.
  assert (H : forall n d, (0 < d)%Z ->
                Binary64.representable (Binary64.literal n d))
    by (intros n d Hd; apply round_representable, Hd).
  split; [|split; [|split; [|split]]]; apply H; reflexivity.
Qed.

Lemma weights_pos :
  0 < W_issues /\ 0 < W_road_types /\ 0 < W_environments /\ 0 < W_speed
  /\ 0 < W_urban_rural.
Proof.
  split; [|split; [|split; [|split]]]; apply Z.ltb_lt; vm_compute; reflexivity.
Qed.

(** On the values of the examples, the operations of [Binary64] return
    what the binary64 operations of the Standard Library's [SpecFloat]
    return; 0.45 is the double [8106479329266893 * 2^-54]. *)
Lemma binary64_agrees_with_SpecFloat :
  let sf := Binary64.to_spec_float in
  let of_int k := binary_normalize 53 1024 k 0 false in
  sf W_issues = S754_finite false 8106479329266893 (-54)
  /\ sf W_issues = SFdiv 53 1024 (of_int 45) (of_int 100)
  /\ sf W_environments = SFdiv 53 1024 (of_int 2) (of_int 10)
  /\ sf (Binary64.int_truediv 1 3) = SFdiv 53 1024 (of_int 1) (of_int 3)
  /\ sf (Binary64.mul W_issues (Binary64.int_truediv 1 3))
     = SFmul 53 1024 (sf W_issues) (sf (Binary64.int_truediv 1 3))
  /\ sf (Binary64.mul W_environments (Binary64.int_truediv 2 7))
     = SFmul 53 1024 (sf W_environments) (sf (Binary64.int_truediv 2 7))
  /\ sf (Binary64.add W_issues W_road_types)
     = SFadd 53 1024 (sf W_issues) (sf W_road_types)
  /\ sf (Binary64.add (Binary64.add W_issues W_road_types) W_environments)
     = SFadd 53 1024 (sf (Binary64.add W_issues W_road_types))
         (sf W_environments)
  /\ sf Binary64.one = S754_finite false 4503599627370496 (-52)
  /\ sf (Binary64.round4 (Binary64.mul W_issues (Binary64.int_truediv 1 8)))
     = SFdiv 53 1024 (of_int 563) (of_int 10000).
Proof. vm_compute. repeat split; reflexivity. Qed.

(** ** Bounds on the amounts *)

Lemma ratio_amount_within (w : Binary64.float) (labels rec : list string) :
  Binary64.representable w -> 0 <= w ->
  amount_within (ratio_amount w labels rec) w.
Proof.
  intros Hw Hw0. unfold ratio_amount.
  destruct (nonempty_list labels) eqn:Hne; simpl; [|exact I].
  apply nonempty_list_true in Hne.
  pose proof (distinct_count_pos labels Hne) as Hn.
  pose proof (list_overlap_le labels rec) as Hk.
  assert (Hq : 0 <= Binary64.int_truediv (Z.of_nat (list_overlap labels rec))
                      (Z.of_nat (distinct_count labels)) <= Binary64.one).
  { split; [apply int_truediv_nonneg|apply int_truediv_le_one]; lia. }
  split; [apply mul_nonneg; lia|apply mul_le_l; assumption].
Qed.

Lemma flat_amount_within (w : Binary64.float) (matched : bool) :
  0 <= w -> amount_within (flat_amount w matched) w.
Proof. intros Hw. destruct matched; simpl; [lia|exact I]. Qed.

(** Under the size bound of a list, a ratio amount is positive exactly
    when the overlap is. *)
Lemma ratio_amount_positive (w : Binary64.float) (labels rec : list string) :
  2 ^ 900 <= w ->
  Z.of_nat (length labels) < 2 ^ 63 ->
  positive_amount (ratio_amount w labels rec)
  = nonempty_list labels && (0 <? list_overlap labels rec)%nat.
Proof.
  intros Hw Hlen. unfold ratio_amount.
  destruct (nonempty_list labels) eqn:Hne; simpl; [|reflexivity].
  apply nonempty_list_true in Hne.
  pose proof (distinct_count_pos labels Hne) as Hn.
  pose proof (distinct_count_le_length labels) as Hnl.
  destruct (Nat.ltb_spec 0 (list_overlap labels rec)) as [Hk|Hk].
  - apply Z.ltb_lt.
    assert (Hk1 : 1 <= Z.of_nat (list_overlap labels rec)) by lia.
    assert (Hn1 : 0 < Z.of_nat (distinct_count labels) <= 2 ^ 63)
      by (clear Hw; lia).
    pose proof (int_truediv_lower _ _ Hk1 Hn1) as Hq.
    pose proof scale_pos as Hs.
    assert (E : 0 < Binary64.round (2 ^ 900 * 2 ^ 1011) Binary64.scale)
      by (vm_compute; reflexivity).
    assert (H900 : 0 <= 2 ^ 900) by (apply Z.pow_nonneg; lia).
    assert (H1011 : 0 <= 2 ^ 1011) by (apply Z.pow_nonneg; lia).
    eapply Z.lt_le_trans; [exact E|].
    unfold Binary64.mul. apply round_mono; [exact Hs|exact Hs|].
    apply Z.mul_le_mono_nonneg_r; [apply Z.lt_le_incl, Hs|].
    apply Z.mul_le_mono_nonneg; assumption.
  - replace (list_overlap labels rec) with 0%nat by lia.
    simpl Z.of_nat. rewrite int_truediv_zero, mul_zero_r. reflexivity.
Qed.

Lemma flat_amount_positive (w : Binary64.float) (matched : bool) :
  0 < w -> positive_amount (flat_amount w matched) = matched.
Proof.
  intros Hw. destruct matched; simpl; [|reflexivity]. apply Z.ltb_lt, Hw.
Qed.

(** ** The score of one record *)

Lemma apply_amount_bounds (a : option Binary64.float)
  (w sc U : Binary64.float) :
  Binary64.representable U -> amount_within a w -> 0 <= w -> 0 <= sc <= U ->
  0 <= apply_amount a sc <= Binary64.add U w.
Proof.
  intros HU Ha Hw Hsc. destruct a as [s|]; simpl in *.
  - split; [apply add_nonneg; lia|apply add_mono; lia].
  - split; [lia|]. unfold Binary64.representable in HU.
    rewrite <- HU in Hsc. etransitivity; [apply Hsc|].
    apply round_mono; lia.
Qed.

Lemma apply_amount_representable (a : option Binary64.float)
  (sc : Binary64.float) :
  Binary64.representable sc -> Binary64.representable (apply_amount a sc).
Proof. destruct a; simpl; [intros _; apply add_representable|auto]. Qed.

Lemma zero_representable : Binary64.representable Binary64.zero.
Proof. reflexivity. Qed.

(** The unrounded score as the five amounts added in turn. *)
Lemma score_state_fst (F : filters) (it : intervention) :
  fst (score_state F it)
  = apply_amount (flat_amount W_urban_rural (urban_rural_matched F it))
      (apply_amount (flat_amount W_speed (speed_matched F it))
         (apply_amount (environments_amount F it)
            (apply_amount (flat_amount W_road_types (road_type_matched F it))
               (apply_amount (issues_amount F it) Binary64.zero)))).
Proof.
  unfold score_state.
  rewrite urban_rural_block_eq, speed_block_eq, environments_block_eq,
    road_type_block_eq, issues_block_eq. reflexivity.
Qed.

Lemma weights_sum :
  Binary64.add (Binary64.add (Binary64.add (Binary64.add
    (Binary64.add Binary64.zero W_issues) W_road_types) W_environments)
    W_speed) W_urban_rural = Binary64.one.
Proof. vm_compute. reflexivity. Qed.

Lemma score_state_bounds (F : filters) (it : intervention) :
  0 <= fst (score_state F it) <= Binary64.one.
Proof.
  destruct weights_representable as (R1 & R2 & R3 & R4 & R5).
  destruct weights_pos as (P1 & P2 & P3 & P4 & P5).
  rewrite score_state_fst, <- weights_sum.
  set (s0 := Binary64.zero).
  assert (B0 : 0 <= s0 <= Binary64.zero) by (split; reflexivity).
  pose proof (apply_amount_bounds (issues_amount F it) W_issues s0 _
                zero_representable (ratio_amount_within _ _ _ R1 (Z.lt_le_incl _ _ P1))
                (Z.lt_le_incl _ _ P1) B0) as B1.
  set (s1 := apply_amount (issues_amount F it) s0) in *.
  pose proof (apply_amount_bounds
                (flat_amount W_road_types (road_type_matched F it)) W_road_types s1 _
                (add_representable _ _)
                (flat_amount_within _ _ (Z.lt_le_incl _ _ P2))
                (Z.lt_le_incl _ _ P2) B1) as B2.
  set (s2 := apply_amount _ s1) in *.
  pose proof (apply_amount_bounds (environments_amount F it) W_environments s2 _
                (add_representable _ _)
                (ratio_amount_within _ _ _ R3 (Z.lt_le_incl _ _ P3))
                (Z.lt_le_incl _ _ P3) B2) as B3.
  set (s3 := apply_amount _ s2) in *.
  pose proof (apply_amount_bounds
                (flat_amount W_speed (speed_matched F it)) W_speed s3 _
                (add_representable _ _)
                (flat_amount_within _ _ (Z.lt_le_incl _ _ P4))
                (Z.lt_le_incl _ _ P4) B3) as B4.
  set (s4 := apply_amount _ s3) in *.
  exact (apply_amount_bounds
           (flat_amount W_urban_rural (urban_rural_matched F it)) W_urban_rural s4 _
           (add_representable _ _)
           (flat_amount_within _ _ (Z.lt_le_incl _ _ P5))
           (Z.lt_le_incl _ _ P5) B4).
Qed.

Lemma score_item_bounds (F : filters) (it : intervention) :
  0 <= _score (score_item F it) <= Binary64.one.
Proof.
  pose proof (score_state_bounds F it) as [Hlo Hhi].
  change (_score (score_item F it))
    with (Binary64.round4 (fst (score_state F it))).
  split.
  - pose proof (round4_mono _ _ Hlo) as M. rewrite round4_zero in M. exact M.
  - pose proof (round4_mono _ _ Hhi) as M. rewrite round4_one in M. exact M.
Qed.

(** C3. The score that [rank_interventions] gives a record lies between
    0 and 1.0: the five weights add up to 1.0, and each block adds to the
    score either nothing or an amount between 0 and its weight. *)
Theorem score_between_zero_and_one :
  (forall F it, 0 <= _score (score_item F it) <= Binary64.one)
  /\ (forall interventions F,
        Forall (fun x => 0 <= _score x <= Binary64.one)
               (rank_interventions interventions F))
  /\ Binary64.add (Binary64.add (Binary64.add (Binary64.add
       (Binary64.add Binary64.zero W_issues) W_road_types) W_environments)
       W_speed) W_urban_rural = Binary64.one
  /\ (forall F it, exists a1 a2 a3 a4 a5,
        block_adds (issues_block F it) a1 /\ amount_within a1 W_issues
        /\ block_adds (road_type_block F it) a2 /\ amount_within a2 W_road_types
        /\ block_adds (environments_block F it) a3
        /\ amount_within a3 W_environments
        /\ block_adds (speed_block F it) a4 /\ amount_within a4 W_speed
        /\ block_adds (urban_rural_block F it) a5
        /\ amount_within a5 W_urban_rural).
Proof.
  destruct weights_representable as (R1 & R2 & R3 & R4 & R5).
  destruct weights_pos as (P1 & P2 & P3 & P4 & P5).
  split; [exact score_item_bounds|]. split; [|split; [exact weights_sum|]].
  - intros interventions F. unfold rank_interventions.
    rewrite (sort_desc_perm _score). apply Forall_fmap, Forall_forall.
    intros it _. apply score_item_bounds.
  - intros F it.
    exists (issues_amount F it), (flat_amount W_road_types (road_type_matched F it)),
      (environments_amount F it), (flat_amount W_speed (speed_matched F it)),
      (flat_amount W_urban_rural (urban_rural_matched F it)).
    split; [intros st; rewrite issues_block_eq; reflexivity|].
    split; [exact (ratio_amount_within _ _ _ R1 (Z.lt_le_incl _ _ P1))|].
    split; [intros st; rewrite road_type_block_eq; reflexivity|].
    split; [exact (flat_amount_within _ _ (Z.lt_le_incl _ _ P2))|].
    split; [intros st; rewrite environments_block_eq; reflexivity|].
    split; [exact (ratio_amount_within _ _ _ R3 (Z.lt_le_incl _ _ P3))|].
    split; [intros st; rewrite speed_block_eq; reflexivity|].
    split; [exact (flat_amount_within _ _ (Z.lt_le_incl _ _ P4))|].
    split; [intros st; rewrite urban_rural_block_eq; reflexivity|].
    exact (flat_amount_within _ _ (Z.lt_le_incl _ _ P5)).
Qed.

(** ** The issues factor *)

(** C2. With a non-empty filter issues list, the issues block adds
    [0.45 * (overlap / n)] to the score, where [overlap] counts the
    distinct normalised (trimmed, lower-cased) labels common to the
    filter and the record and [n] the distinct normalised filter labels,
    and it appends "Matches issues: overlap/n" exactly when [overlap] is
    positive; two issues matched out of two add 0.45. *)
Theorem issues_factor_contribution :
  (forall (F : filters) (it : intervention) (st : rank_state),
     issues F <> [] ->
     let common :=
       normalized_set (issues F) ∩ normalized_set (get_list (it_issues it)) in
     let overlap := size common in
     let n := size (normalized_set (issues F)) in
     (forall x, x ∈ common <->
        (exists a, a ∈ issues F /\ PyStr.lower (PyStr.strip a) = x)
        /\ (exists b, b ∈ get_list (it_issues it)
                      /\ PyStr.lower (PyStr.strip b) = x))
     /\ (forall x, x ∈ normalized_set (issues F) <->
           exists a, a ∈ issues F /\ PyStr.lower (PyStr.strip a) = x)
     /\ length (elements common) = overlap /\ NoDup (elements common)
     /\ (0 < n)%nat /\ (overlap <= n)%nat
     /\ issues_block F it st
        = (Binary64.add (fst st)
             (Binary64.mul (Binary64.literal 45 100)
                (Binary64.int_truediv (Z.of_nat overlap) (Z.of_nat n))),
           snd st ++ (if (0 <? overlap)%nat
                      then ["Matches issues: " +:+ pretty overlap
                            +:+ "/" +:+ pretty n]
                      else [])))
  /\ (let F := {| road_type := None;
                  issues := ["speeding"; "pedestrian crashes"];
                  environments := []; speed_kmh := None;
                  urban_rural := None |} in
      let it := {| it_id := "1"; it_name := "Raised Pedestrian Crossing";
                   it_description := "";
                   it_road_types := None;
                   it_issues := Some ["speeding"; "pedestrian crashes"];
                   it_environments := None;
                   it_suitable_speed_range := None;
                   it_urban_rural := None; it_references := None |} in
      Binary64.mul (Binary64.literal 45 100) (Binary64.int_truediv 2 2)
      = Binary64.literal 45 100
      /\ issues_block F it (Binary64.zero, [])
         = (Binary64.literal 45 100, ["Matches issues: 2/2"]))
  /\ (let F := {| road_type := None;
                  issues := ["  Speeding "; "speeding"; "Head-On"];
                  environments := []; speed_kmh := None;
                  urban_rural := None |} in
      let it := {| it_id := "2"; it_name := ""; it_description := "";
                   it_road_types := None;
                   it_issues := Some ["SPEEDING"; "speeding  "; "overtaking"];
                   it_environments := None;
                   it_suitable_speed_range := None;
                   it_urban_rural := None; it_references := None |} in
      issues_block F it (Binary64.zero, [])
      = (Binary64.mul (Binary64.literal 45 100) (Binary64.int_truediv 1 2),
         ["Matches issues: 1/2"])).
Proof.
  split; [|split].
  - intros F it st Hne common overlap n.
    split; [|split; [|split; [|split; [|split; [|split]]]]].
    + intros x. subst common. rewrite elem_of_intersection.
      rewrite !elem_of_normalized_set. reflexivity.
    + intros x. apply elem_of_normalized_set.
    + reflexivity.
    + apply NoDup_elements.
    + apply (distinct_count_pos _ Hne).
    + apply (list_overlap_le (issues F) (get_list (it_issues it))).
    + rewrite issues_block_eq. unfold issues_amount, ratio_amount.
      apply nonempty_list_true in Hne. rewrite Hne. reflexivity.
  - vm_compute. split; reflexivity.
  - vm_compute. reflexivity.
Qed.

Lemma issues_factor_contribution_witness :
  let F := {| road_type := None; issues := ["speeding"; "overtaking"];
              environments := []; speed_kmh := None; urban_rural := None |} in
  let it := {| it_id := "7"; it_name := ""; it_description := "";
               it_road_types := None; it_issues := Some ["Speeding"];
               it_environments := None; it_suitable_speed_range := None;
               it_urban_rural := None; it_references := None |} in
  issues F <> []
  /\ issues_block F it (Binary64.zero, [])
     = (Binary64.add Binary64.zero
          (Binary64.mul (Binary64.literal 45 100) (Binary64.int_truediv 1 2)),
        ["Matches issues: 1/2"]).
Proof.
  intros F it. split; [discriminate|].
  destruct (proj1 issues_factor_contribution F it (Binary64.zero, [])
              ltac:(discriminate)) as (_ & _ & _ & _ & _ & _ & E).
  rewrite E. vm_compute. reflexivity.
Defined.

(** ** The speed factor *)

(** C6. The speed block adds the flat 0.05 (and its reason) if and only
    if the filter has a speed, the record has a speed range of exactly
    two elements, and the speed lies between them, bounds included;
    otherwise it leaves the state alone.  70 in [50, 110] adds 0.05, 70
    in [80, 120] adds nothing. *)
Theorem speed_factor_contribution :
  (forall (F : filters) (it : intervention) (st : rank_state),
     let matched :=
       exists v lo hi, speed_kmh F = Some v
                       /\ it_suitable_speed_range it = Some [lo; hi]
                       /\ lo <= v <= hi in
     (matched <->
        speed_block F it st
        = (Binary64.add (fst st) (Binary64.literal 5 100),
           snd st ++ ["Effective within given speed range"]))
     /\ (~ matched <-> speed_block F it st = st))
  /\ (forall it rng,
        it_suitable_speed_range it = Some rng ->
        let F := {| road_type := None; issues := []; environments := [];
                    speed_kmh := Some 70; urban_rural := None |} in
        (rng = [50; 110] ->
           speed_block F it (Binary64.zero, [])
           = (Binary64.literal 5 100, ["Effective within given speed range"]))
        /\ (rng = [80; 120] ->
              speed_block F it (Binary64.zero, []) = (Binary64.zero, []))).
Proof.
  assert (Hspec : forall F it,
            speed_matched F it = true <->
            exists v lo hi, speed_kmh F = Some v
                            /\ it_suitable_speed_range it = Some [lo; hi]
                            /\ lo <= v <= hi).
  { intros F it. unfold speed_matched, speed_in_range.
    destruct (speed_kmh F) as [v|]; simpl.
    - destruct (it_suitable_speed_range it) as [[|lo [|hi [|x l]]]|]; simpl;
        try (split; [discriminate|intros (? & ? & ? & _ & ? & _); discriminate]).
      split.
      + intros H. apply andb_true_iff in H as [H1 H2].
        apply Z.leb_le in H1. apply Z.leb_le in H2.
        exists v, lo, hi. auto.
      + intros (v' & lo' & hi' & E1 & E2 & Hr).
        injection E1 as <-. injection E2 as <- <-.
        apply andb_true_iff. split; apply Z.leb_le; lia.
    - split; [discriminate|intros (? & ? & ? & ? & _); discriminate]. }
  assert (Hneq : forall (st : rank_state) x r, (x, snd st ++ [r]) <> st).
  { intros [sc rs] x r E. injection E as _ E. simpl in E.
    apply (f_equal length) in E. rewrite length_app in E. simpl in E.
    clear - E. apply (f_equal Z.of_nat) in E. lia. }
  split.
  - intros F it st matched. subst matched. rewrite <- Hspec.
    rewrite speed_block_eq.
    destruct (speed_matched F it); simpl.
    + split; split.
      * reflexivity.
      * reflexivity.
      * intros Hn. exfalso. apply Hn. reflexivity.
      * intros E Hn. exact (Hneq _ _ _ E).
    + rewrite app_nil_r. destruct st as [sc rs]. simpl.
      split; split.
      * discriminate.
      * intros E. exfalso. symmetry in E. exact (Hneq (sc, rs) _ _ E).
      * reflexivity.
      * discriminate.
  - intros it rng Hr F. split; intros ->; unfold speed_block; rewrite Hr.
    + vm_compute. reflexivity.
    + reflexivity.
Qed.

(** ** Records with missing keys *)

Lemma ratio_amount_nil_r (w : Binary64.float) (labels : list string) :
  ratio_amount w labels [] = (if nonempty_list labels then Some Binary64.zero else None).
Proof.
  unfold ratio_amount. rewrite list_overlap_nil_r.
  destruct (nonempty_list labels); [|reflexivity].
  change (Z.of_nat 0) with 0. rewrite int_truediv_zero, mul_zero_r. reflexivity.
Qed.

Lemma apply_zero_amount (b : bool) (sc : Binary64.float) :
  Binary64.representable sc ->
  apply_amount (if b then Some Binary64.zero else None) sc = sc.
Proof. intros Hsc. destruct b; simpl; [apply add_zero_r, Hsc|reflexivity]. Qed.

Lemma block_representable (F : filters) (it : intervention) (st : rank_state) :
  Binary64.representable (fst st) ->
  Binary64.representable (fst (issues_block F it st))
  /\ Binary64.representable (fst (road_type_block F it st))
  /\ Binary64.representable (fst (environments_block F it st))
  /\ Binary64.representable (fst (speed_block F it st))
  /\ Binary64.representable (fst (urban_rural_block F it st)).
Proof.
  intros Hst.
  rewrite issues_block_eq, road_type_block_eq, environments_block_eq,
    speed_block_eq, urban_rural_block_eq.
  repeat split; apply apply_amount_representable, Hst.
Qed.

(** C9. A record from which a label sequence (or the speed range) is
    missing is scored as if the sequence were empty: the overlap of the
    factor is zero, the amount it adds is zero, and the block leaves
    score and reasons as they were.  The embedding is a total function:
    no case of it stands for an error. *)
Theorem missing_fields_contribute_nothing :
  (forall (F : filters) (it : intervention) (st : rank_state),
     Binary64.representable (fst st) ->
     (it_issues it = None ->
        list_overlap (issues F) (get_list (it_issues it)) = 0%nat
        /\ issues_block F it st = st)
     /\ (it_road_types it = None ->
           list_overlap [default EmptyString (road_type F)]
                        (get_list (it_road_types it)) = 0%nat
           /\ road_type_block F it st = st)
     /\ (it_environments it = None ->
           list_overlap (environments F) (get_list (it_environments it)) = 0%nat
           /\ environments_block F it st = st)
     /\ (it_suitable_speed_range it = None -> speed_block F it st = st)
     /\ (it_urban_rural it = None -> urban_rural_block F it st = st))
  /\ (forall w n, Binary64.mul w (Binary64.int_truediv 0 n) = Binary64.zero)
  /\ Binary64.representable Binary64.zero
  /\ (forall F it st,
        Binary64.representable (fst st) ->
        Binary64.representable (fst (issues_block F it st))
        /\ Binary64.representable (fst (road_type_block F it st))
        /\ Binary64.representable (fst (environments_block F it st))
        /\ Binary64.representable (fst (speed_block F it st))
        /\ Binary64.representable (fst (urban_rural_block F it st)))
  /\ (forall F it,
        it_issues it = None -> it_road_types it = None ->
        it_environments it = None -> it_suitable_speed_range it = None ->
        it_urban_rural it = None ->
        score_state F it = (Binary64.zero, [])
        /\ _score (score_item F it) = Binary64.zero).
Proof.
  assert (Hblocks : forall (F : filters) (it : intervention) (st : rank_state),
     Binary64.representable (fst st) ->
     (it_issues it = None ->
        list_overlap (issues F) (get_list (it_issues it)) = 0%nat
        /\ issues_block F it st = st)
     /\ (it_road_types it = None ->
           list_overlap [default EmptyString (road_type F)]
                        (get_list (it_road_types it)) = 0%nat
           /\ road_type_block F it st = st)
     /\ (it_environments it = None ->
           list_overlap (environments F) (get_list (it_environments it)) = 0%nat
           /\ environments_block F it st = st)
     /\ (it_suitable_speed_range it = None -> speed_block F it st = st)
     /\ (it_urban_rural it = None -> urban_rural_block F it st = st)).
  { intros F it [sc rs] Hst. simpl in Hst.
    split; [|split; [|split; [|split]]].
    - intros E. rewrite E. simpl get_list. split; [apply list_overlap_nil_r|].
      rewrite issues_block_eq. unfold issues_amount. rewrite E. simpl get_list.
      rewrite ratio_amount_nil_r, list_overlap_nil_r, andb_false_r, app_nil_r.
      simpl fst. rewrite (apply_zero_amount _ _ Hst). reflexivity.
    - intros E. rewrite E. simpl get_list. split; [apply list_overlap_nil_r|].
      unfold road_type_block. rewrite E. simpl get_list.
      rewrite list_overlap_nil_r. destruct (truthy_string (road_type F)); reflexivity.
    - intros E. rewrite E. simpl get_list. split; [apply list_overlap_nil_r|].
      rewrite environments_block_eq. unfold environments_amount.
      rewrite E. simpl get_list.
      rewrite ratio_amount_nil_r, list_overlap_nil_r, andb_false_r, app_nil_r.
      simpl fst. rewrite (apply_zero_amount _ _ Hst). reflexivity.
    - intros E. unfold speed_block. rewrite E. simpl truthy_list.
      rewrite andb_false_r. reflexivity.
    - intros E. unfold urban_rural_block. rewrite E. simpl truthy_list.
      rewrite andb_false_r. reflexivity. }
  split; [exact Hblocks|]. split; [|split; [|split]].
  - intros w n. rewrite int_truediv_zero. apply mul_zero_r.
  - exact zero_representable.
  - exact block_representable.
  - intros F it E1 E2 E3 E4 E5.
    assert (Hs : score_state F it = (Binary64.zero, [])).
    { unfold score_state.
      destruct (Hblocks F it (Binary64.zero, []) zero_representable)
        as (H1 & H2 & H3 & H4 & H5).
      rewrite (proj2 (H1 E1)), (proj2 (H2 E2)), (proj2 (H3 E3)), (H4 E4), (H5 E5).
      reflexivity. }
    split; [exact Hs|].
    change (_score (score_item F it))
      with (Binary64.round4 (fst (score_state F it))).
    rewrite Hs. exact round4_zero.
Qed.

Lemma missing_fields_contribute_nothing_witness :
  let F := {| road_type := Some "rural highway"; issues := ["speeding"];
              environments := ["curve"]; speed_kmh := Some 70;
              urban_rural := Some "rural" |} in
  let it := {| it_id := "3"; it_name := "Bare record"; it_description := "";
               it_road_types := None; it_issues := None;
               it_environments := None; it_suitable_speed_range := None;
               it_urban_rural := None; it_references := None |} in
  Binary64.representable (fst (W_issues, ["Matches issues: 1/1"]))
  /\ environments_block F it (W_issues, ["Matches issues: 1/1"])
     = (W_issues, ["Matches issues: 1/1"]).
Proof.
  intros F it.
  assert (R : Binary64.representable (fst (W_issues, ["Matches issues: 1/1"])))
    by (vm_compute; reflexivity).
  split; [exact R|].
  destruct (proj1 missing_fields_contribute_nothing F it _ R)
    as (_ & _ & H3 & _).
  exact (proj2 (H3 eq_refl)).
Defined.

(** ** Reasons and positive amounts *)

Lemma block_explains_invariant (block : rank_state -> rank_state)
  (a : option Binary64.float) (w : Binary64.float) (r : string)
  (st : rank_state) :
  block_explains block a r -> amount_within a w ->
  reasons_iff_positive st -> reasons_iff_positive (block st).
Proof.
  intros Hb Ha [Hnn Hiff]. rewrite (Hb st). unfold reasons_iff_positive.
  destruct st as [sc rs]. simpl fst in *. simpl snd in *.
  destruct a as [s|]; simpl in *.
  - destruct Ha as [Hs _]. destruct (Z.ltb_spec 0 s) as [Hp|Hz].
    + split; [apply add_nonneg; assumption|].
      split; [intros _; apply add_pos; assumption|].
      intros _ E. apply (f_equal length) in E. rewrite length_app in E.
      simpl in E. clear - E. apply (f_equal Z.of_nat) in E. lia.
    + assert (s = 0) by (clear - Hs Hz; lia). subst s.
      rewrite app_nil_r. split; [apply add_nonneg; assumption|].
      rewrite add_zero_pos by assumption. exact Hiff.
  - rewrite app_nil_r. split; assumption.
Qed.

Lemma weights_not_tiny : 2 ^ 900 <= W_issues /\ 2 ^ 900 <= W_environments.
Proof. split; apply Z.leb_le; vm_compute; reflexivity. Qed.

Lemma issues_block_explains (F : filters) (it : intervention) :
  Z.of_nat (length (issues F)) < 2 ^ 63 ->
  block_explains (issues_block F it) (issues_amount F it)
    (issues_reason (list_overlap (issues F) (get_list (it_issues it)))
       (distinct_count (issues F))).
Proof.
  intros Hlen st. rewrite issues_block_eq. unfold issues_amount.
  rewrite (ratio_amount_positive W_issues (issues F) (get_list (it_issues it))
             (proj1 weights_not_tiny) Hlen).
  reflexivity.
Qed.

Lemma environments_block_explains (F : filters) (it : intervention) :
  Z.of_nat (length (environments F)) < 2 ^ 63 ->
  block_explains (environments_block F it) (environments_amount F it)
    "Suitable for the described environment".
Proof.
  intros Hlen st. rewrite environments_block_eq. unfold environments_amount.
  rewrite (ratio_amount_positive W_environments (environments F)
             (get_list (it_environments it)) (proj2 weights_not_tiny) Hlen).
  reflexivity.
Qed.

Lemma road_type_block_explains (F : filters) (it : intervention) :
  block_explains (road_type_block F it)
    (flat_amount W_road_types (road_type_matched F it))
    "Applicable to specified road type".
Proof.
  intros st. rewrite road_type_block_eq.
  rewrite (flat_amount_positive W_road_types (road_type_matched F it)
             (proj1 (proj2 weights_pos))).
  reflexivity.
Qed.

Lemma speed_block_explains (F : filters) (it : intervention) :
  block_explains (speed_block F it)
    (flat_amount W_speed (speed_matched F it))
    "Effective within given speed range".
Proof.
  intros st. rewrite speed_block_eq.
  rewrite (flat_amount_positive W_speed (speed_matched F it)
             (proj1 (proj2 (proj2 (proj2 weights_pos))))).
  reflexivity.
Qed.

Lemma urban_rural_block_explains (F : filters) (it : intervention) :
  block_explains (urban_rural_block F it)
    (flat_amount W_urban_rural (urban_rural_matched F it))
    "Designed for the specified context (urban/rural)".
Proof.
  intros st. rewrite urban_rural_block_eq.
  rewrite (flat_amount_positive W_urban_rural (urban_rural_matched F it)
             (proj2 (proj2 (proj2 (proj2 weights_pos))))).
  reflexivity.
Qed.

(** C10. Each block appends its reason exactly when the amount it adds
    to the unrounded score is strictly positive, so a record has a reason
    if and only if its unrounded score is strictly positive.  The filter
    lists are within the size a Python list can have. *)
Theorem reasons_iff_positive_contribution (F : filters) (it : intervention) :
  Z.of_nat (length (issues F)) < 2 ^ 63 ->
  Z.of_nat (length (environments F)) < 2 ^ 63 ->
  (exists a1 a2 a3 a4 a5 r1,
      block_explains (issues_block F it) a1 r1
      /\ block_explains (road_type_block F it) a2
           "Applicable to specified road type"
      /\ block_explains (environments_block F it) a3
           "Suitable for the described environment"
      /\ block_explains (speed_block F it) a4
           "Effective within given speed range"
      /\ block_explains (urban_rural_block F it) a5
           "Designed for the specified context (urban/rural)")
  /\ (snd (score_state F it) <> [] <-> 0 < fst (score_state F it)).
Proof.
  intros Hi He.
  destruct weights_representable as (R1 & R2 & R3 & R4 & R5).
  destruct weights_pos as (P1 & P2 & P3 & P4 & P5).
  pose proof (issues_block_explains F it Hi) as B1.
  pose proof (road_type_block_explains F it) as B2.
  pose proof (environments_block_explains F it He) as B3.
  pose proof (speed_block_explains F it) as B4.
  pose proof (urban_rural_block_explains F it) as B5.
  split.
  - exists (issues_amount F it),
      (flat_amount W_road_types (road_type_matched F it)),
      (environments_amount F it),
      (flat_amount W_speed (speed_matched F it)),
      (flat_amount W_urban_rural (urban_rural_matched F it)),
      (issues_reason (list_overlap (issues F) (get_list (it_issues it)))
         (distinct_count (issues F))).
    exact (conj B1 (conj B2 (conj B3 (conj B4 B5)))).
  - assert (I0 : reasons_iff_positive (Binary64.zero, [])).
    { split; [reflexivity|]. split.
      - intros H. exfalso. apply H. reflexivity.
      - intros H. exfalso. exact (Z.lt_irrefl _ H). }
    pose proof (block_explains_invariant (issues_block F it) _ W_issues _ _ B1
                  (ratio_amount_within _ _ _ R1 (Z.lt_le_incl _ _ P1)) I0) as I1.
    pose proof (block_explains_invariant (road_type_block F it) _ W_road_types
                  _ _ B2 (flat_amount_within _ _ (Z.lt_le_incl _ _ P2)) I1) as I2.
    pose proof (block_explains_invariant (environments_block F it) _
                  W_environments _ _ B3
                  (ratio_amount_within _ _ _ R3 (Z.lt_le_incl _ _ P3)) I2) as I3.
    pose proof (block_explains_invariant (speed_block F it) _ W_speed _ _ B4
                  (flat_amount_within _ _ (Z.lt_le_incl _ _ P4)) I3) as I4.
    pose proof (block_explains_invariant (urban_rural_block F it) _
                  W_urban_rural _ _ B5
                  (flat_amount_within _ _ (Z.lt_le_incl _ _ P5)) I4) as I5.
    exact (proj2 I5).
Qed.

Lemma reasons_iff_positive_contribution_witness :
  let F := {| road_type := Some "rural highway"; issues := ["speeding"];
              environments := ["curve"; "bridge"]; speed_kmh := Some 70;
              urban_rural := None |} in
  let it := {| it_id := "2"; it_name := "Rumble Strips"; it_description := "";
               it_road_types := Some ["rural highway"; "rural arterial"];
               it_issues := Some ["run-off-road"; "head-on"];
               it_environments := Some ["curve"; "midblock"];
               it_suitable_speed_range := Some [50; 110];
               it_urban_rural := Some ["rural"]; it_references := None |} in
  (Z.of_nat (length (issues F)) < 2 ^ 63
   /\ Z.of_nat (length (environments F)) < 2 ^ 63)
  /\ (snd (score_state F it) <> [] <-> 0 < fst (score_state F it)).
Proof.
  intros F it.
  assert (H1 : Z.of_nat (length (issues F)) < 2 ^ 63) by reflexivity.
  assert (H2 : Z.of_nat (length (environments F)) < 2 ^ 63) by reflexivity.
  split; [split; assumption|].
  exact (proj2 (reasons_iff_positive_contribution F it H1 H2)).
Defined.

(** ** The filter merge *)

(** C4, as the specification states it, fails: an explicit [road_type]
    that is the empty string is not null, so the merge keeps it and the
    parsed road type is dropped. *)
Lemma merge_keeps_empty_explicit_road_type :
  let req := {| req_prompt := Some "speeding on a rural highway";
                req_road_type := Some EmptyString;
                req_issues := []; req_environments := [];
                req_speed_kmh := None; req_urban_rural := None;
                req_top_k := 10 |} in
  exists parsed merged,
    parse_free_text "speeding on a rural highway" = Returns parsed
    /\ road_type parsed = Some "rural highway"
    /\ truthy_string (req_road_type req) = false
    /\ merged_filters req = Returns merged
    /\ road_type merged = Some EmptyString
    /\ road_type merged <> road_type parsed.
Proof.
  eexists _, _. split; [vm_compute; reflexivity|].
  split; [reflexivity|]. split; [reflexivity|].
  split; [vm_compute; reflexivity|]. split; [reflexivity|]. discriminate.
Qed.

(** C4, amended. When a prompt is supplied, every key of the filter is
    merged as follows: a single-valued key ([road_type], [speed_kmh],
    [urban_rural]) keeps the explicit value unless that value is null,
    and only then takes the parsed one (so an explicit empty string is
    kept); a multi-valued key ([issues], [environments]) keeps the
    explicit list unless it is empty, and then takes the parsed one. *)
Theorem merge_policy :
  (forall (req : RecommendationRequest) (p : string) (parsed : filters),
     req_prompt req = Some p -> p <> EmptyString ->
     parse_free_text p = Returns parsed ->
     exists merged,
       merged_filters req = Returns merged
       /\ road_type merged
          = match req_road_type req with
            | Some x => Some x
            | None => road_type parsed
            end
       /\ speed_kmh merged
          = match req_speed_kmh req with
            | Some x => Some x
            | None => speed_kmh parsed
            end
       /\ urban_rural merged
          = match req_urban_rural req with
            | Some x => Some x
            | None => urban_rural parsed
            end
       /\ issues merged
          = match req_issues req with
            | [] => issues parsed
            | _ :: _ => req_issues req
            end
       /\ environments merged
          = match req_environments req with
            | [] => environments parsed
            | _ :: _ => req_environments req
            end)
  /\ merge_multi [] ["speeding"] = ["speeding"].
Proof.
  split; [|reflexivity].
  intros req p parsed Hp Hne Hparse. unfold merged_filters.
  rewrite Hp. simpl default.
  assert (Ht : truthy_string (Some p) = true)
    by (destruct p; [congruence|reflexivity]).
  rewrite Ht, Hparse. eexists. split; [reflexivity|].
  unfold merge_filters, request_filters, merge_single, merge_multi; simpl.
  repeat split.
  - destruct (req_road_type req); reflexivity.
  - destruct (req_speed_kmh req); reflexivity.
  - destruct (req_urban_rural req); reflexivity.
  - destruct (req_issues req); reflexivity.
  - destruct (req_environments req); reflexivity.
Qed.

Lemma merge_policy_witness :
  let req := {| req_prompt := Some "speeding near a school zone at 40 km/h";
                req_road_type := Some EmptyString;
                req_issues := []; req_environments := ["curve"];
                req_speed_kmh := None; req_urban_rural := None;
                req_top_k := 10 |} in
  let parsed := {| road_type := None; issues := ["speeding"];
                   environments := ["school zone"]; speed_kmh := Some 40;
                   urban_rural := None |} in
  (req_prompt req = Some "speeding near a school zone at 40 km/h"
   /\ "speeding near a school zone at 40 km/h" <> EmptyString
   /\ parse_free_text "speeding near a school zone at 40 km/h" = Returns parsed)
  /\ exists merged,
       merged_filters req = Returns merged
       /\ road_type merged = Some EmptyString
       /\ speed_kmh merged = Some 40
       /\ urban_rural merged = None
       /\ issues merged = ["speeding"]
       /\ environments merged = ["curve"].
Proof.
  intros req parsed.
  assert (H1 : req_prompt req = Some "speeding near a school zone at 40 km/h")
    by reflexivity.
  assert (H2 : "speeding near a school zone at 40 km/h" <> EmptyString)
    by discriminate.
  assert (H3 : parse_free_text "speeding near a school zone at 40 km/h"
               = Returns parsed) by (vm_compute; reflexivity).
  split; [auto|].
  exact (proj1 merge_policy req _ parsed H1 H2 H3).
Defined.

(** ** The speed of a prompt *)


(** C5, at a prompt on which the code departs from it.  The prompt is
    the superscript two (U+00B2), a blank, and "40".  Its first token
    passes [isdigit] but has no decimal value, so [int] raises
    [ValueError] and the parser returns nothing, where the claim has the
    scan skip that token and find the speed 40. *)
Theorem parse_speed_raises_on_superscript_digit :
  let prompt := String (ascii_of_N 178) " 40" in
  PyStr.split (PyStr.replace "km/h" "kmh" (normalize prompt))
  = [String (ascii_of_N 178) EmptyString; "40"]
  /\ PyStr.isdigit (String (ascii_of_N 178) EmptyString) = true
  /\ PyStr.int (String (ascii_of_N 178) EmptyString) = None
  /\ scan_speed ["40"] = Returns (Some 40)
  /\ parse_speed (normalize prompt) = ValueError
  /\ parse_free_text prompt = ValueError.
Proof. vm_compute. repeat split; reflexivity. Qed.

(** ** The parser on the example prompt *)

Lemma filter_bool_cons (f : string -> bool) (a : string) (l : list string) :
  filter (fun y => f y) (a :: l)
  = if f a then a :: filter (fun y => f y) l else filter (fun y => f y) l.
Proof.
  rewrite filter_cons. destruct (f a) eqn:E.
  - rewrite decide_True; [reflexivity|exact I].
  - rewrite decide_False; [reflexivity|intros []].
Qed.

(** [next((x for x in l if f(x)), None)] is the first [x] that passes. *)
Lemma head_filter_first (f : string -> bool) (l : list string) (x : string) :
  head (filter (fun y => f y) l) = Some x <->
  exists before after,
    l = before ++ x :: after
    /\ Forall (fun y => f y = false) before /\ f x = true.
Proof.
  induction l as [|a l IH].
  - split; [discriminate|]. intros (l1 & l2 & E & _). destruct l1; discriminate.
  - rewrite filter_bool_cons. destruct (f a) eqn:Ha.
    + simpl. split.
      * intros [= <-]. exists [], l. repeat split; [constructor|exact Ha].
      * intros (l1 & l2 & E & Hf & Hx). destruct l1 as [|b l1].
        -- injection E as ->. reflexivity.
        -- injection E as <- _. inversion Hf; congruence.
    + rewrite IH. split.
      * intros (l1 & l2 & -> & Hf & Hx). exists (a :: l1), l2.
        repeat split; [constructor; assumption|exact Hx].
      * intros (l1 & l2 & E & Hf & Hx). destruct l1 as [|b l1].
        -- injection E as -> _. congruence.
        -- injection E as <- ->. inversion Hf. exists l1, l2. auto.
Qed.

Lemma head_filter_none (f : string -> bool) (l : list string) :
  head (filter (fun y => f y) l) = None <-> Forall (fun y => f y = false) l.
Proof.
  induction l as [|a l IH].
  - split; [constructor|reflexivity].
  - rewrite filter_bool_cons. destruct (f a) eqn:Ha.
    + split; [discriminate|]. intros Hf. inversion Hf; congruence.
    + rewrite IH. split; [constructor; assumption|].
      intros Hf. inversion Hf; assumption.
Qed.

Lemma elem_of_filter_bool (f : string -> bool) (l : list string) (x : string) :
  x ∈ filter (fun y => f y) l <-> x ∈ l /\ f x = true.
Proof. rewrite list_elem_of_filter, Is_true_true. tauto. Qed.

(** C7. The prompt of the example parses to the issue "speeding", the
    environment "school zone", the speed 40, "urban", and no road type.
    In general the issues and environments are the vocabulary entries
    contained in the normalised prompt, the road type is the first
    vocabulary entry contained in it, and "urban" wins over "rural". *)
Theorem parse_free_text_example :
  parse_free_text "speeding near a school zone at 40 km/h in urban area"
  = Returns {| road_type := None;
               issues := ["speeding"];
               environments := ["school zone"];
               speed_kmh := Some 40;
               urban_rural := Some "urban" |}
  /\ (forall (prompt : string) (r : filters),
        parse_free_text prompt = Returns r ->
        let p := PyStr.lower (PyStr.strip prompt) in
        (forall kw, kw ∈ issues r <->
                    kw ∈ KNOWN_ISSUES /\ PyStr.contains kw p = true)
        /\ (forall kw, kw ∈ environments r <->
                       kw ∈ KNOWN_ENVIRONMENTS /\ PyStr.contains kw p = true)
        /\ (forall rt, road_type r = Some rt <->
              exists before after,
                KNOWN_ROAD_TYPES = before ++ rt :: after
                /\ Forall (fun x => PyStr.contains x p = false) before
                /\ PyStr.contains rt p = true)
        /\ (road_type r = None <->
              Forall (fun x => PyStr.contains x p = false) KNOWN_ROAD_TYPES)
        /\ (PyStr.contains "urban" p = true -> urban_rural r = Some "urban")
        /\ (PyStr.contains "urban" p = false ->
            PyStr.contains "rural" p = true -> urban_rural r = Some "rural")
        /\ (PyStr.contains "urban" p = false ->
            PyStr.contains "rural" p = false -> urban_rural r = None)).
Proof.
  split; [vm_compute; reflexivity|].
  intros prompt r Hparse p. unfold parse_free_text in Hparse.
  fold (normalize prompt) in p. fold p in Hparse.
  destruct (parse_speed p) as [sp|]; [|discriminate].
  injection Hparse as <-. cbn [issues environments road_type urban_rural].
  split; [|split; [|split; [|split; [|split; [|split]]]]].
  - intros kw. apply (elem_of_filter_bool (fun kw => PyStr.contains kw p)).
  - intros kw. apply (elem_of_filter_bool (fun kw => PyStr.contains kw p)).
  - intros rt. apply (head_filter_first (fun rt => PyStr.contains rt p)).
  - apply (head_filter_none (fun rt => PyStr.contains rt p)).
  - intros ->. reflexivity.
  - intros -> ->. reflexivity.
  - intros -> ->. reflexivity.
Qed.

Lemma parse_free_text_example_witness :
  parse_free_text "Overtaking on a Rural Highway, 90 km/h"
  = Returns {| road_type := Some "rural highway"; issues := ["overtaking"];
               environments := []; speed_kmh := Some 90;
               urban_rural := Some "rural" |}
  /\ (Some "rural highway" = Some "rural highway" <->
        exists before after,
          KNOWN_ROAD_TYPES = before ++ "rural highway" :: after
          /\ Forall (fun x => PyStr.contains x
                                "overtaking on a rural highway, 90 km/h" = false)
                    before
          /\ PyStr.contains "rural highway"
               "overtaking on a rural highway, 90 km/h" = true).
Proof.
  assert (H : parse_free_text "Overtaking on a Rural Highway, 90 km/h"
              = Returns {| road_type := Some "rural highway";
                           issues := ["overtaking"];
                           environments := []; speed_kmh := Some 90;
                           urban_rural := Some "rural" |})
    by (vm_compute; reflexivity).
  split; [exact H|].
  destruct (proj2 parse_free_text_example _ _ H) as (_ & _ & H3 & _).
  exact (H3 "rural highway").
Defined.

(** ** The response *)

Lemma rank_interventions_length (docs : list intervention) (F : filters) :
  length (rank_interventions docs F) = length docs.
Proof.
  unfold rank_interventions.
  rewrite (Permutation_length (sort_desc_perm _score _)).
  apply length_fmap.
Qed.

Lemma clamp_top_k_range (k : Z) : 1 <= clamp_top_k k <= 50.
Proof. unfold clamp_top_k. lia. Qed.

(** C8. Whatever [top_k] is requested, the request is served: the number
    of items returned is the number of records, capped at [top_k] clamped
    into [1, 50]; a [top_k] of zero or less gives one item when there is
    a record, a [top_k] above 50 gives at most 50; and no item carries
    more than three references. *)
Theorem top_k_clamped_references_trimmed
  (req : RecommendationRequest) (docs : list intervention) (F : filters) :
  merged_filters req = Returns F ->
  exists resp,
    recommend req docs = Returns resp
    /\ 1 <= clamp_top_k (req_top_k req) <= 50
    /\ (1 <= req_top_k req <= 50 -> clamp_top_k (req_top_k req) = req_top_k req)
    /\ items resp
       = make_result
           <$> take (Z.to_nat (clamp_top_k (req_top_k req)))
                    (rank_interventions docs F)
    /\ length (items resp)
       = Nat.min (Z.to_nat (clamp_top_k (req_top_k req))) (length docs)
    /\ count resp = length (items resp)
    /\ (req_top_k req <= 0 -> docs <> [] -> length (items resp) = 1%nat)
    /\ (50 < req_top_k req -> (length (items resp) <= 50)%nat)
    /\ Forall (fun r => (length (res_references r) <= 3)%nat) (items resp)
    /\ (forall x, x ∈ take (Z.to_nat (clamp_top_k (req_top_k req)))
                         (rank_interventions docs F) ->
          res_references (make_result x)
          = make_ref_note <$> take 3 (get_list (it_references (item x)))).
Proof.
  intros HF. unfold recommend. rewrite HF. eexists. split; [reflexivity|].
  pose proof (clamp_top_k_range (req_top_k req)) as Hc.
  assert (Hlen : length (make_result
                   <$> take (Z.to_nat (clamp_top_k (req_top_k req)))
                            (rank_interventions docs F))
                 = Nat.min (Z.to_nat (clamp_top_k (req_top_k req))) (length docs)).
  { rewrite length_fmap, length_take, rank_interventions_length. reflexivity. }
  cbn [items count].
  split; [exact Hc|]. split; [unfold clamp_top_k; lia|].
  split; [reflexivity|]. split; [exact Hlen|]. split; [reflexivity|].
  split; [|split; [|split]].
  - intros Hk Hd. rewrite Hlen.
    assert (clamp_top_k (req_top_k req) = 1) as -> by (unfold clamp_top_k; lia).
    destruct docs; [congruence|]. reflexivity.
  - intros Hk. rewrite Hlen. lia.
  - apply Forall_fmap, Forall_forall. intros x _. simpl.
    rewrite length_fmap, length_take. lia.
  - intros x _. reflexivity.
Qed.

Lemma top_k_clamped_references_trimmed_witness :
  let it := {| it_id := "1"; it_name := "Rumble Strips"; it_description := "";
               it_road_types := Some ["rural highway"];
               it_issues := Some ["run-off-road"];
               it_environments := Some ["curve"];
               it_suitable_speed_range := Some [50; 110];
               it_urban_rural := Some ["rural"];
               it_references := None |} in
  let req := {| req_prompt := None; req_road_type := Some "rural highway";
                req_issues := []; req_environments := [];
                req_speed_kmh := None; req_urban_rural := None;
                req_top_k := -3 |} in
  merged_filters req = Returns (request_filters req)
  /\ exists resp,
       recommend req [it; it] = Returns resp
       /\ length (items resp) = 1%nat.
Proof.
  intros it req.
  assert (H : merged_filters req = Returns (request_filters req)) by reflexivity.
  split; [exact H|].
  destruct (top_k_clamped_references_trimmed req [it; it] _ H)
    as (resp & E & _ & _ & _ & _ & _ & H1 & _).
  exists resp. split; [exact E|]. apply H1; [simpl; lia|discriminate].
Defined.

(** ** Normalisation of labels and prompts *)

Lemma lower_char_idem (c : ascii) :
  PyStr.lower_char (PyStr.lower_char c) = PyStr.lower_char c.
Proof. destruct c as [[] [] [] [] [] [] [] []]; reflexivity. Qed.

Lemma isspace_lower_char (c : ascii) :
  PyStr.isspace (PyStr.lower_char c) = PyStr.isspace c.
Proof. destruct c as [[] [] [] [] [] [] [] []]; reflexivity. Qed.

Lemma lower_idem (s : string) : PyStr.lower (PyStr.lower s) = PyStr.lower s.
Proof.
  induction s as [|c s IH]; [reflexivity|].
  simpl. rewrite lower_char_idem, IH. reflexivity.
Qed.

Lemma lstrip_lower (s : string) :
  PyStr.lstrip (PyStr.lower s) = PyStr.lower (PyStr.lstrip s).
Proof.
  induction s as [|c s IH]; [reflexivity|].
  simpl. rewrite isspace_lower_char.
  destruct (PyStr.isspace c); [exact IH|reflexivity].
Qed.

Lemma rstrip_lower (s : string) :
  PyStr.rstrip (PyStr.lower s) = PyStr.lower (PyStr.rstrip s).
Proof.
  induction s as [|c s IH]; [reflexivity|].
  simpl. rewrite IH, isspace_lower_char.
  destruct (PyStr.rstrip s); simpl; [|reflexivity].
  destruct (PyStr.isspace c); reflexivity.
Qed.

Lemma strip_lower (s : string) :
  PyStr.strip (PyStr.lower s) = PyStr.lower (PyStr.strip s).
Proof. unfold PyStr.strip. rewrite lstrip_lower, rstrip_lower. reflexivity. Qed.

(** A string that does not start with whitespace. *)
Lemma lstrip_clean (s : string) :
  match PyStr.lstrip s with
  | EmptyString => True
  | String c _ => PyStr.isspace c = false
  end.
Proof.
  induction s as [|c s IH]; [exact I|].
  simpl. destruct (PyStr.isspace c) eqn:E; [exact IH|exact E].
Qed.

Lemma rstrip_head (c : ascii) (s : string) :
  PyStr.isspace c = false ->
  exists t, PyStr.rstrip (String c s) = String c t.
Proof.
  intros Hc. simpl. rewrite Hc.
  destruct (PyStr.rstrip s); eexists; reflexivity.
Qed.

Lemma rstrip_idem (s : string) : PyStr.rstrip (PyStr.rstrip s) = PyStr.rstrip s.
Proof.
  induction s as [|c s IH]; [reflexivity|].
  simpl. destruct (PyStr.rstrip s) as [|d t] eqn:E.
  - destruct (PyStr.isspace c) eqn:Hc; [reflexivity|].
    simpl. rewrite Hc. reflexivity.
  - simpl in *. rewrite IH. reflexivity.
Qed.

Lemma strip_idem (s : string) : PyStr.strip (PyStr.strip s) = PyStr.strip s.
Proof.
  unfold PyStr.strip. pose proof (lstrip_clean s) as Hc.
  destruct (PyStr.lstrip s) as [|c t]; [reflexivity|].
  destruct (rstrip_head c t Hc) as (u & E). rewrite E.
  simpl PyStr.lstrip. rewrite Hc, <- E. apply rstrip_idem.
Qed.

Lemma normalize_normalize (text : string) :
  normalize (normalize text) = normalize text.
Proof.
  unfold normalize. rewrite !strip_lower, strip_idem, lower_idem. reflexivity.
Qed.

(** X1. Normalising is idempotent: a normalised label is already
    stripped and already in lower case, so normalising it again changes
    nothing. *)
Theorem normalize_idempotent (text : string) :
  normalize (normalize text) = normalize text
  /\ PyStr.strip (normalize text) = normalize text
  /\ PyStr.lower (normalize text) = normalize text.
Proof.
  unfold normalize. rewrite !strip_lower, strip_idem, lower_idem. auto.
Qed.

(** X2. The parser reads a prompt only through its normal form: putting
    the prompt in lower case, stripping it, or normalising it beforehand
    changes neither the result nor whether an error is raised. *)
Theorem parse_free_text_normalized (prompt : string) :
  parse_free_text (PyStr.lower prompt) = parse_free_text prompt
  /\ parse_free_text (PyStr.strip prompt) = parse_free_text prompt
  /\ parse_free_text (normalize prompt) = parse_free_text prompt.
Proof.
  assert (H : forall p q, normalize p = normalize q ->
                          parse_free_text p = parse_free_text q).
  { intros p q E. unfold parse_free_text. rewrite E. reflexivity. }
  split; [|split]; apply H.
  - unfold normalize. rewrite strip_lower, lower_idem. reflexivity.
  - unfold normalize. rewrite strip_idem. reflexivity.
  - apply normalize_normalize.
Qed.

(** ** Prompts the parser accepts *)

Section CharInvariant.
Context (P : ascii -> bool).







End CharInvariant.














(** ** What the parser returns *)

Lemma scan_speed_in_range (tokens : list string) (v : Z) :
  scan_speed tokens = Returns (Some v) -> 10 <= v <= 130.
Proof.
  induction tokens as [|t l IH]; [discriminate|].
  simpl. destruct (PyStr.isdigit t); [|exact IH].
  destruct (PyStr.int t) as [n|]; [|discriminate].
  destruct ((10 <=? n) && (n <=? 130)) eqn:E; [|exact IH].
  intros [= <-]. apply andb_true_iff in E as [E1 E2].
  apply Z.leb_le in E1. apply Z.leb_le in E2. lia.
Qed.

Lemma vocabulary_normalized :
  Forall (fun kw => normalize kw = kw)
         (KNOWN_ROAD_TYPES ++ KNOWN_ISSUES ++ KNOWN_ENVIRONMENTS).
Proof. repeat constructor. Qed.

(** X4. Whenever the parser returns, its result is well formed: the
    issues and the environments are sub-sequences of the vocabularies (in
    vocabulary order, without repetition), the road type is an entry of
    its vocabulary, every label is in normal form, the speed lies in
    [10, 130], and the context is "urban", "rural" or undefined. *)
Theorem parse_free_text_well_formed (prompt : string) (r : filters) :
  parse_free_text prompt = Returns r ->
  issues r `sublist_of` KNOWN_ISSUES
  /\ environments r `sublist_of` KNOWN_ENVIRONMENTS
  /\ NoDup (issues r) /\ NoDup (environments r)
  /\ (forall rt, road_type r = Some rt -> rt ∈ KNOWN_ROAD_TYPES)
  /\ Forall (fun kw => normalize kw = kw) (issues r ++ environments r)
  /\ (forall rt, road_type r = Some rt -> normalize rt = rt)
  /\ (forall v, speed_kmh r = Some v -> 10 <= v <= 130)
  /\ (urban_rural r = None \/ urban_rural r = Some "urban"
      \/ urban_rural r = Some "rural").
Proof.
  intros Hparse. unfold parse_free_text in Hparse.
  set (p := normalize prompt) in *.
  destruct (parse_speed p) as [sp|] eqn:Hsp; [|discriminate].
  injection Hparse as <-. cbn [issues environments road_type urban_rural speed_kmh].
  assert (Hnd : NoDup KNOWN_ISSUES /\ NoDup KNOWN_ENVIRONMENTS).
  { split; apply (bool_decide_unpack _); vm_compute; reflexivity. }
  pose proof vocabulary_normalized as Hvoc.
  apply Forall_app in Hvoc as [Hv1 Hv2]. apply Forall_app in Hv2 as [Hv2 Hv3].
  assert (Hrt : forall rt,
            head (filter (fun rt => PyStr.contains rt p) KNOWN_ROAD_TYPES)
            = Some rt -> rt ∈ KNOWN_ROAD_TYPES).
  { intros rt H. apply head_Some_elem_of in H.
    apply list_elem_of_filter in H. tauto. }
  split; [apply sublist_filter|]. split; [apply sublist_filter|].
  split; [apply NoDup_filter, Hnd|]. split; [apply NoDup_filter, Hnd|].
  split; [exact Hrt|]. split; [|split; [|split]].
  - rewrite Forall_forall in Hv2, Hv3.
    apply Forall_app. split; apply Forall_forall; intros x Hx;
      apply list_elem_of_filter in Hx as [_ Hx]; auto.
  - intros rt H. apply Hrt in H.
    rewrite Forall_forall in Hv1. exact (Hv1 rt H).
  - intros v ->. exact (scan_speed_in_range _ _ Hsp).
  - destruct (PyStr.contains "urban" p); [auto|].
    destruct (PyStr.contains "rural" p); auto.
Qed.

Lemma parse_free_text_well_formed_witness :
  parse_free_text "Head-on and overtaking crashes on a bridge, 95 km/h"
  = Returns {| road_type := None; issues := ["head-on"; "overtaking"];
               environments := ["bridge"]; speed_kmh := Some 95;
               urban_rural := None |}
  /\ ["head-on"; "overtaking"] `sublist_of` KNOWN_ISSUES.
Proof.
  assert (H : parse_free_text
                "Head-on and overtaking crashes on a bridge, 95 km/h"
              = Returns {| road_type := None;
                           issues := ["head-on"; "overtaking"];
                           environments := ["bridge"]; speed_kmh := Some 95;
                           urban_rural := None |})
    by (vm_compute; reflexivity).
  split; [exact H|].
  exact (proj1 (parse_free_text_well_formed _ _ H)).
Defined.

(** ** The overlap of two label lists *)

Lemma normalized_set_ext (a a' : list string) :
  (forall x, (exists y, y ∈ a /\ normalize y = x)
             <-> (exists y, y ∈ a' /\ normalize y = x)) ->
  normalized_set a = normalized_set a'.
Proof.
  intros H. apply set_eq. intros x. rewrite !elem_of_normalized_set. apply H.
Qed.

Lemma normalized_set_fmap (a : list string) :
  normalized_set (normalize <$> a) = normalized_set a.
Proof.
  apply normalized_set_ext. intros x. split.
  - intros (y & Hy & <-). apply list_elem_of_fmap in Hy as (z & -> & Hz).
    exists z. split; [exact Hz|]. symmetry. apply normalize_normalize.
  - intros (y & Hy & <-). exists (normalize y).
    split; [apply list_elem_of_fmap_2, Hy|apply normalize_normalize].
Qed.

Lemma list_overlap_mono_r (a b b' : list string) :
  normalized_set b ⊆ normalized_set b' ->
  (list_overlap a b <= list_overlap a b')%nat.
Proof.
  intros H. unfold list_overlap. apply subseteq_size, intersection_mono_l, H.
Qed.

Lemma list_overlap_full (a b : list string) :
  normalized_set a ⊆ normalized_set b -> list_overlap a b = distinct_count a.
Proof.
  intros H. unfold list_overlap, distinct_count.
  rewrite (subseteq_intersection_1_L _ _ H). reflexivity.
Qed.

(** X5. The overlap of two label lists is symmetric, is bounded by the
    number of distinct normalised labels (and so by the length) of either
    list, and depends only on the sets of normalised labels: normalising,
    reordering or repeating the labels of a list does not change it.  The
    overlap of a list with itself is its number of distinct labels, and
    an overlap is zero exactly when no two labels agree after
    normalisation. *)
Theorem list_overlap_properties (a b : list string) :
  list_overlap a b = list_overlap b a
  /\ (list_overlap a b <= Nat.min (distinct_count a) (distinct_count b))%nat
  /\ (list_overlap a b <= Nat.min (length a) (length b))%nat
  /\ list_overlap (normalize <$> a) b = list_overlap a b
  /\ (forall a', a ≡ₚ a' -> list_overlap a' b = list_overlap a b)
  /\ list_overlap (a ++ a) b = list_overlap a b
  /\ list_overlap a a = distinct_count a
  /\ (list_overlap a b = 0%nat <->
      forall x y, x ∈ a -> y ∈ b -> normalize x <> normalize y).
Proof.
  assert (Hsym : forall u v, list_overlap u v = list_overlap v u).
  { intros u v. unfold list_overlap. f_equal. apply (comm_L (∩)). }
  assert (Hle : forall u v, (list_overlap u v <= length u)%nat).
  { intros u v. pose proof (list_overlap_le u v).
    pose proof (distinct_count_le_length u). lia. }
  split; [apply Hsym|]. split; [|split; [|split; [|split; [|split; [|split]]]]].
  - pose proof (list_overlap_le a b). pose proof (list_overlap_le b a).
    rewrite (Hsym b a) in *. lia.
  - pose proof (Hle a b). pose proof (Hle b a). rewrite (Hsym b a) in *. lia.
  - unfold list_overlap. rewrite normalized_set_fmap. reflexivity.
  - intros a' Hp. unfold list_overlap. f_equal. f_equal.
    apply normalized_set_ext. intros x.
    split; intros (y & Hy & E); exists y; split; auto;
      [rewrite Hp|rewrite <- Hp]; exact Hy.
  - unfold list_overlap. f_equal. f_equal. apply normalized_set_ext. intros x.
    split; intros (y & Hy & E); exists y; split; auto.
    + apply elem_of_app in Hy. tauto.
    + apply elem_of_app. auto.
  - apply list_overlap_full. reflexivity.
  - unfold list_overlap. rewrite size_empty_iff. split.
    + intros He x y Hx Hy E.
      assert (Hin : normalize x ∈ normalized_set a ∩ normalized_set b).
      { apply elem_of_intersection.
        split; apply elem_of_normalized_set; eauto. }
      rewrite He in Hin. exact (not_elem_of_empty _ Hin).
    + intros H. apply elem_of_equiv_empty. intros x Hx.
      apply elem_of_intersection in Hx as [H1 H2].
      apply elem_of_normalized_set in H1 as (u & Hu & <-).
      apply elem_of_normalized_set in H2 as (v & Hv & E).
      exact (H u v Hu Hv (eq_sym E)).
Qed.

(** ** Ranking without a filter, and ranking twice *)

Lemma sort_desc_sorted_id {A} (key : A -> Binary64.float) (l : list A) :
  StronglySorted (desc key) l -> sort_desc key l = l.
Proof.
  induction 1 as [|x l Hs IH Hx]; [reflexivity|].
  change (sort_desc key (x :: l)) with (insert_desc key x (sort_desc key l)).
  rewrite IH. destruct l as [|y l']; [reflexivity|].
  simpl. inversion Hx as [|? ? Hy _]; subst. unfold desc in Hy.
  unfold Binary64.ltb. destruct (Z.ltb_spec (key x) (key y)); [lia|reflexivity].
Qed.

Lemma score_item_no_filter (F : filters) (it : intervention) :
  no_filter F ->
  score_item F it = {| item := it; _score := 0; _reasons := [] |}.
Proof.
  intros (H1 & H2 & H3 & H4 & H5).
  assert (Hs : score_state F it = (Binary64.zero, [])).
  { unfold score_state, issues_block, road_type_block, environments_block,
      speed_block, urban_rural_block.
    rewrite H1, H2, H3, H4, H5. reflexivity. }
  unfold score_item. rewrite Hs. cbn [fst snd].
  change Binary64.zero with 0. rewrite round4_zero. reflexivity.
Qed.

(** X6. When no field of the filter is set (an empty string counts as
    unset for the road type and the context), every record scores 0 with
    no reason, and [rank_interventions] returns the records in the order
    of the input. *)
Theorem rank_interventions_no_filter
  (interventions : list intervention) (F : filters) :
  no_filter F ->
  rank_interventions interventions F
  = (fun it => {| item := it; _score := 0; _reasons := [] |})
      <$> interventions.
Proof.
  intros HF. unfold rank_interventions.
  assert (E : score_item F <$> interventions
              = (fun it => {| item := it; _score := 0; _reasons := [] |})
                  <$> interventions).
  { apply list_fmap_ext. intros i it _. apply score_item_no_filter, HF. }
  rewrite E. apply sort_desc_sorted_id. clear E.
  induction interventions as [|it l IH]; [constructor|].
  rewrite fmap_cons. constructor; [exact IH|].
  apply Forall_fmap, Forall_forall. intros x _. unfold desc. simpl. lia.
Qed.

Lemma rank_interventions_no_filter_witness :
  let F := {| road_type := Some EmptyString; issues := [];
              environments := []; speed_kmh := None; urban_rural := None |} in
  let a := {| it_id := "1"; it_name := "Roundabout Conversion";
              it_description := ""; it_road_types := Some ["urban arterial"];
              it_issues := Some ["head-on"];
              it_environments := Some ["intersection"];
              it_suitable_speed_range := Some [20; 60];
              it_urban_rural := Some ["urban"; "rural"];
              it_references := None |} in
  let b := {| it_id := "2"; it_name := "Rumble Strips";
              it_description := ""; it_road_types := None;
              it_issues := Some ["run-off-road"]; it_environments := None;
              it_suitable_speed_range := None; it_urban_rural := None;
              it_references := None |} in
  no_filter F
  /\ item <$> rank_interventions [a; b] F = [a; b].
Proof.
  intros F a b.
  assert (H : no_filter F) by (repeat split).
  split; [exact H|].
  rewrite (rank_interventions_no_filter [a; b] F H). reflexivity.
Defined.

(** X7. Ranking is stable under its own result: ranking the records in
    the order [rank_interventions] returned them gives the same list
    again. *)
Theorem rank_interventions_idempotent
  (interventions : list intervention) (F : filters) :
  rank_interventions (item <$> rank_interventions interventions F) F
  = rank_interventions interventions F.
Proof.
  unfold rank_interventions at 1.
  assert (E : score_item F <$> (item <$> rank_interventions interventions F)
              = rank_interventions interventions F).
  { rewrite <- list_fmap_compose.
    rewrite <- (list_fmap_id (rank_interventions interventions F)) at 2.
    apply Forall_fmap_ext_1.
    unfold rank_interventions. rewrite (sort_desc_perm _score).
    apply Forall_fmap, Forall_forall. intros it _. reflexivity. }
  rewrite E. apply sort_desc_sorted_id.
  apply (sort_desc_sorted _score).
Qed.

(** ** The road type, environments and context factors *)

Lemma truthy_string_true (s : option string) :
  truthy_string s = true <-> exists x, s = Some x /\ x <> EmptyString.
Proof.
  destruct s as [[|c x]|]; simpl; split; try discriminate.
  - intros (x & [= <-] & H). congruence.
  - intros _. eexists. split; [reflexivity|discriminate].
  - intros _. reflexivity.
  - intros (x & H & _). discriminate.
Qed.

Lemma elem_of_normalized_list (x : string) (l : list string) :
  x ∈ normalize <$> l <-> exists b, b ∈ l /\ normalize b = x.
Proof.
  rewrite list_elem_of_fmap. split; intros (b & H1 & H2); exists b; auto.
Qed.

(** A block that adds a flat weight with its reason, or nothing. *)
Lemma flat_block_iff (block : rank_state -> rank_state)
  (w : Binary64.float) (matched : bool) (reason : string) (st : rank_state) :
  block st = (apply_amount (flat_amount w matched) (fst st),
              snd st ++ (if matched then [reason] else [])) ->
  (matched = true <->
     block st = (Binary64.add (fst st) w, snd st ++ [reason]))
  /\ (matched <> true <-> block st = st).
Proof.
  intros E. rewrite E.
  assert (Hneq : forall x, (x, snd st ++ [reason]) <> st).
  { destruct st as [sc rs]. intros x [= _ H]. simpl in H.
    apply (f_equal length) in H. rewrite length_app in H. simpl in H.
    clear - H. apply (f_equal Z.of_nat) in H. lia. }
  destruct matched; simpl.
  - split; split.
    + reflexivity.
    + reflexivity.
    + intros Hn. exfalso. apply Hn. reflexivity.
    + intros H _. exact (Hneq _ H).
  - rewrite app_nil_r. destruct st as [sc rs]. simpl. split; split.
    + discriminate.
    + intros H. exfalso. symmetry in H. exact (Hneq _ H).
    + reflexivity.
    + discriminate.
Qed.

Lemma road_type_matched_spec (F : filters) (it : intervention) :
  road_type_matched F it = true <->
  exists rt b, road_type F = Some rt /\ rt <> EmptyString
               /\ b ∈ get_list (it_road_types it)
               /\ normalize b = normalize rt.
Proof.
  unfold road_type_matched. rewrite andb_true_iff, truthy_string_true.
  rewrite Nat.ltb_lt, list_overlap_singleton_pos, elem_of_normalized_set.
  split.
  - intros ((rt & E & Hne) & (b & Hb & Hn)). rewrite E in Hn. simpl in Hn.
    exists rt, b. auto.
  - intros (rt & b & E & Hne & Hb & Hn). rewrite E. simpl. split; eauto.
Qed.

Lemma urban_rural_matched_spec (F : filters) (it : intervention) :
  urban_rural_matched F it = true <->
  exists u b, urban_rural F = Some u /\ u <> EmptyString
              /\ b ∈ get_list (it_urban_rural it)
              /\ normalize b = normalize u.
Proof.
  unfold urban_rural_matched.
  rewrite !andb_true_iff, truthy_string_true, bool_decide_eq_true.
  rewrite elem_of_normalized_list. split.
  - intros (((u & E & Hne) & _) & (b & Hb & Hn)). rewrite E in Hn. simpl in Hn.
    exists u, b. auto.
  - intros (u & b & E & Hne & Hb & Hn). rewrite E. simpl.
    split; [split; [eauto|]|eauto].
    destruct (it_urban_rural it) as [[|x l]|]; simpl in *;
      [inversion Hb|reflexivity|inversion Hb].
Qed.

(** X8. The road type block adds the flat weight 0.25 (and its reason)
    if and only if the filter has a non-empty road type and some road
    type of the record is equal to it after normalisation; otherwise it
    leaves score and reasons alone. *)
Theorem road_type_factor_contribution
  (F : filters) (it : intervention) (st : rank_state) :
  let matched :=
    exists rt b, road_type F = Some rt /\ rt <> EmptyString
                 /\ b ∈ get_list (it_road_types it)
                 /\ PyStr.lower (PyStr.strip b) = PyStr.lower (PyStr.strip rt) in
  (matched <->
     road_type_block F it st
     = (Binary64.add (fst st) W_road_types,
        snd st ++ ["Applicable to specified road type"]))
  /\ (~ matched <-> road_type_block F it st = st).
Proof.
  intros matched.
  destruct (flat_block_iff (road_type_block F it) W_road_types
              (road_type_matched F it) "Applicable to specified road type" st
              (road_type_block_eq F it st)) as [H1 H2].
  rewrite road_type_matched_spec in H1, H2.
  unfold normalize in H1, H2. exact (conj H1 H2).
Qed.

(** X9. The context block adds the flat weight 0.05 (and its reason) if and
    only if the filter has a non-empty [urban_rural] and some entry of
    the record's [urban_rural] list is equal to it after normalisation;
    otherwise it leaves score and reasons alone. *)
Theorem urban_rural_factor_contribution
  (F : filters) (it : intervention) (st : rank_state) :
  let matched :=
    exists u b, urban_rural F = Some u /\ u <> EmptyString
                /\ b ∈ get_list (it_urban_rural it)
                /\ PyStr.lower (PyStr.strip b) = PyStr.lower (PyStr.strip u) in
  (matched <->
     urban_rural_block F it st
     = (Binary64.add (fst st) W_urban_rural,
        snd st ++ ["Designed for the specified context (urban/rural)"]))
  /\ (~ matched <-> urban_rural_block F it st = st).
Proof.
  intros matched.
  destruct (flat_block_iff (urban_rural_block F it) W_urban_rural
              (urban_rural_matched F it)
              "Designed for the specified context (urban/rural)" st
              (urban_rural_block_eq F it st)) as [H1 H2].
  rewrite urban_rural_matched_spec in H1, H2.
  unfold normalize in H1, H2. exact (conj H1 H2).
Qed.

(** X10. With a non-empty filter environments list the environments
    block adds [0.2 * (overlap / n)], [overlap] out of the [n] distinct
    normalised filter environments being found in the record, and it
    appends its reason exactly when [overlap] is positive; with an empty
    list it leaves score and reasons alone. *)
Theorem environments_factor_contribution
  (F : filters) (it : intervention) (st : rank_state) :
  let overlap :=
    size (normalized_set (environments F)
          ∩ normalized_set (get_list (it_environments it))) in
  let n := size (normalized_set (environments F)) in
  (environments F <> [] ->
     (0 < n)%nat /\ (overlap <= n)%nat
     /\ environments_block F it st
        = (Binary64.add (fst st)
             (Binary64.mul (Binary64.literal 2 10)
                (Binary64.int_truediv (Z.of_nat overlap) (Z.of_nat n))),
           snd st ++ (if (0 <? overlap)%nat
                      then ["Suitable for the described environment"]
                      else [])))
  /\ (environments F = [] -> environments_block F it st = st).
Proof.
  intros overlap n. split.
  - intros Hne. split; [apply (distinct_count_pos _ Hne)|].
    split; [apply (list_overlap_le (environments F)
                     (get_list (it_environments it)))|].
    rewrite environments_block_eq. unfold environments_amount, ratio_amount.
    apply nonempty_list_true in Hne. rewrite Hne. reflexivity.
  - intros E. unfold environments_block. rewrite E. reflexivity.
Qed.

Lemma environments_factor_contribution_witness :
  let F := {| road_type := None; issues := [];
              environments := ["Curve"; "bridge"; " curve "];
              speed_kmh := None; urban_rural := None |} in
  let it := {| it_id := "2"; it_name := "Rumble Strips"; it_description := "";
               it_road_types := None; it_issues := None;
               it_environments := Some ["curve"; "midblock"];
               it_suitable_speed_range := None; it_urban_rural := None;
               it_references := None |} in
  environments F <> []
  /\ environments_block F it (Binary64.zero, [])
     = (Binary64.add Binary64.zero
          (Binary64.mul (Binary64.literal 2 10) (Binary64.int_truediv 1 2)),
        ["Suitable for the described environment"]).
Proof.
  intros F it.
  assert (H : environments F <> []) by discriminate.
  split; [exact H|].
  destruct (proj1 (environments_factor_contribution F it (Binary64.zero, [])) H)
    as (_ & _ & E).
  rewrite E. vm_compute. reflexivity.
Defined.

(** ** The reasons of a record *)

Lemma score_state_snd (F : filters) (it : intervention) :
  snd (score_state F it)
  = (if nonempty_list (issues F)
        && (0 <? list_overlap (issues F) (get_list (it_issues it)))%nat
     then [issues_reason (list_overlap (issues F) (get_list (it_issues it)))
             (distinct_count (issues F))]
     else [])
    ++ (if road_type_matched F it
        then ["Applicable to specified road type"] else [])
    ++ (if nonempty_list (environments F)
           && (0 <? list_overlap (environments F)
                      (get_list (it_environments it)))%nat
        then ["Suitable for the described environment"] else [])
    ++ (if speed_matched F it
        then ["Effective within given speed range"] else [])
    ++ (if urban_rural_matched F it
        then ["Designed for the specified context (urban/rural)"] else []).
Proof.
  unfold score_state.
  rewrite urban_rural_block_eq, speed_block_eq, environments_block_eq,
    road_type_block_eq, issues_block_eq.
  cbn [fst snd]. rewrite <- !app_assoc. reflexivity.
Qed.

(** X11. The reasons of a record come in the fixed order of the five
    factors and each at most once: they form a sub-sequence of the issues
    reason, the road type reason, the environments reason, the speed
    reason and the context reason. *)
Theorem reasons_in_factor_order (F : filters) (it : intervention) :
  _reasons (score_item F it)
  `sublist_of`
  [ "Matches issues: "
      +:+ pretty (list_overlap (issues F) (get_list (it_issues it)))
      +:+ "/" +:+ pretty (distinct_count (issues F));
    "Applicable to specified road type";
    "Suitable for the described environment";
    "Effective within given speed range";
    "Designed for the specified context (urban/rural)" ].
Proof.
  change (_reasons (score_item F it)) with (snd (score_state F it)).
  rewrite score_state_snd.
  assert (H : forall (b : bool) (r : string) l k,
            l `sublist_of` k -> ((if b then [r] else []) ++ l) `sublist_of` (r :: k)).
  { intros [] r l k Hl; simpl; [apply sublist_skip|apply sublist_cons]; exact Hl. }
  apply (H _ _ _ _), (H _ _ _ _), (H _ _ _ _), (H _ _ _ _).
  rewrite <- (app_nil_r (if urban_rural_matched F it then _ else _)).
  apply (H _ _ _ _). constructor.
Qed.

(** ** The score as a function of the label sets *)

Lemma score_state_eq (F : filters) (it : intervention) :
  score_state F it = (fst (score_state F it), snd (score_state F it)).
Proof. destruct (score_state F it); reflexivity. Qed.

Lemma get_list_normalize_all (x : option (list string)) :
  get_list (normalize_all x) = normalize <$> get_list x.
Proof. destruct x; reflexivity. Qed.

Lemma list_overlap_fmap_r (a b : list string) :
  list_overlap a (normalize <$> b) = list_overlap a b.
Proof. unfold list_overlap. rewrite normalized_set_fmap. reflexivity. Qed.

Lemma truthy_list_normalize_all (x : option (list string)) :
  truthy_list (normalize_all x) = truthy_list x.
Proof. destruct x as [[|a l]|]; reflexivity. Qed.

Lemma fmap_normalize_idem (l : list string) :
  normalize <$> (normalize <$> l) = normalize <$> l.
Proof.
  rewrite <- list_fmap_compose. apply list_fmap_ext.
  intros i x _. apply normalize_normalize.
Qed.

Lemma normalize_labels_amounts (F : filters) (it : intervention) :
  issues_amount F (normalize_labels it) = issues_amount F it
  /\ environments_amount F (normalize_labels it) = environments_amount F it
  /\ road_type_matched F (normalize_labels it) = road_type_matched F it
  /\ speed_matched F (normalize_labels it) = speed_matched F it
  /\ urban_rural_matched F (normalize_labels it) = urban_rural_matched F it.
Proof.
  unfold issues_amount, environments_amount, ratio_amount, road_type_matched,
    speed_matched, urban_rural_matched.
  cbn [normalize_labels it_issues it_environments it_road_types
       it_suitable_speed_range it_urban_rural].
  rewrite !get_list_normalize_all, !list_overlap_fmap_r,
    truthy_list_normalize_all, fmap_normalize_idem.
  repeat split; reflexivity.
Qed.

(** X12. The score and the reasons of a record do not depend on the
    case of its labels or on the whitespace around them: the record with
    every label normalised gets the same score and the same reasons. *)
Theorem score_ignores_label_case (F : filters) (it : intervention) :
  _score (score_item F (normalize_labels it)) = _score (score_item F it)
  /\ _reasons (score_item F (normalize_labels it)) = _reasons (score_item F it).
Proof.
  destruct (normalize_labels_amounts F it) as (E1 & E2 & E3 & E4 & E5).
  assert (Hfst : fst (score_state F (normalize_labels it))
                 = fst (score_state F it)).
  { rewrite !score_state_fst, E1, E2, E3, E4, E5. reflexivity. }
  assert (Hsnd : snd (score_state F (normalize_labels it))
                 = snd (score_state F it)).
  { rewrite !score_state_snd, E3, E4, E5.
    cbn [normalize_labels it_issues it_environments].
    rewrite !get_list_normalize_all, !list_overlap_fmap_r. reflexivity. }
  split.
  - change (Binary64.round4 (fst (score_state F (normalize_labels it)))
            = Binary64.round4 (fst (score_state F it))).
    rewrite Hfst. reflexivity.
  - exact Hsnd.
Qed.

(** ** A record with more labels *)

Lemma int_truediv_mono (k k' n : Z) :
  k <= k' -> 0 < n -> Binary64.int_truediv k n <= Binary64.int_truediv k' n.
Proof.
  intros Hk Hn. pose proof scale_pos as Hs. unfold Binary64.int_truediv.
  apply round_mono; [exact Hn|exact Hn|].
  apply Z.mul_le_mono_nonneg_r; [apply Z.lt_le_incl, Hn|].
  apply Z.mul_le_mono_nonneg_r; [apply Z.lt_le_incl, Hs|exact Hk].
Qed.

Lemma ratio_amount_mono (w : Binary64.float) (labels rec rec' : list string) :
  0 <= w -> normalized_set rec ⊆ normalized_set rec' ->
  amount_le (ratio_amount w labels rec) (ratio_amount w labels rec').
Proof.
  intros Hw Hsub. unfold ratio_amount.
  destruct (nonempty_list labels) eqn:Hne; [|exact I].
  apply nonempty_list_true in Hne.
  pose proof (distinct_count_pos labels Hne) as Hn.
  pose proof (list_overlap_mono_r labels rec rec' Hsub) as Hk.
  assert (Hn' : 0 < Z.of_nat (distinct_count labels)) by (clear - Hn; lia).
  assert (Hk' : Z.of_nat (list_overlap labels rec)
                <= Z.of_nat (list_overlap labels rec')) by (clear - Hk; lia).
  assert (H0 : 0 <= Z.of_nat (list_overlap labels rec)) by apply Nat2Z.is_nonneg.
  pose proof (int_truediv_nonneg _ _ H0 Hn') as Hq0.
  pose proof (int_truediv_mono _ _ _ Hk' Hn') as Hq.
  simpl. split.
  - apply mul_nonneg; assumption.
  - apply mul_mono; [split; [exact Hw|apply Z.le_refl]|split; assumption].
Qed.

Lemma flat_amount_mono (w : Binary64.float) (m m' : bool) :
  0 <= w -> (m = true -> m' = true) ->
  amount_le (flat_amount w m) (flat_amount w m').
Proof.
  intros Hw H. destruct m; simpl.
  - rewrite (H eq_refl). simpl. split; [exact Hw|apply Z.le_refl].
  - destruct m'; simpl; [exact Hw|exact I].
Qed.

Lemma apply_amount_mono (a a' : option Binary64.float)
  (sc sc' : Binary64.float) :
  Binary64.representable sc' -> amount_le a a' -> sc <= sc' ->
  apply_amount a sc <= apply_amount a' sc'.
Proof.
  intros Hr Ha Hsc. destruct a as [s|], a' as [s'|]; simpl in *.
  - apply add_mono; [exact Hsc|apply Ha].
  - destruct Ha.
  - unfold Binary64.representable in Hr.
    apply Z.le_trans with sc'; [exact Hsc|].
    rewrite <- Hr at 1. unfold Binary64.add.
    apply round_mono; [reflexivity|reflexivity|].
    rewrite !Z.mul_1_r. clear - Ha. lia.
  - exact Hsc.
Qed.

Lemma covers_matched (F : filters) (it it' : intervention) :
  covers it it' ->
  (road_type_matched F it = true -> road_type_matched F it' = true)
  /\ (speed_matched F it = true -> speed_matched F it' = true)
  /\ (urban_rural_matched F it = true -> urban_rural_matched F it' = true).
Proof.
  intros (_ & Hr & _ & Hu & Hs). split; [|split].
  - unfold road_type_matched. rewrite !andb_true_iff, !Nat.ltb_lt.
    rewrite !list_overlap_singleton_pos. intros [H1 H2].
    split; [exact H1|]. exact (Hr _ H2).
  - unfold speed_matched. rewrite Hs. auto.
  - rewrite !urban_rural_matched_spec.
    intros (u & b & E & Hne & Hb & Hn).
    assert (Hin : normalize u ∈ normalized_set (get_list (it_urban_rural it')))
      by (apply Hu, elem_of_normalized_set; eauto).
    apply elem_of_normalized_set in Hin as (b' & Hb' & Hn').
    exists u, b'. auto.
Qed.

(** X13. A record never loses score by gaining labels: if [it'] has the
    labels of [it] (up to normalisation) and the same speed range, then
    under every filter its unrounded and its rounded score are at least
    those of [it]. *)
Theorem score_monotone_in_labels (F : filters) (it it' : intervention) :
  covers it it' ->
  fst (score_state F it) <= fst (score_state F it')
  /\ _score (score_item F it) <= _score (score_item F it').
Proof.
  intros Hc.
  destruct weights_pos as (P1 & P2 & P3 & P4 & P5).
  destruct (covers_matched F it it' Hc) as (M2 & M4 & M5).
  destruct Hc as (Hi & _ & He & _ & _).
  assert (H : fst (score_state F it) <= fst (score_state F it')).
  { rewrite !score_state_fst.
    apply apply_amount_mono;
      [repeat apply apply_amount_representable; exact zero_representable
      |exact (flat_amount_mono W_urban_rural _ _ (Z.lt_le_incl _ _ P5) M5)|].
    apply apply_amount_mono;
      [repeat apply apply_amount_representable; exact zero_representable
      |exact (flat_amount_mono W_speed _ _ (Z.lt_le_incl _ _ P4) M4)|].
    apply apply_amount_mono;
      [repeat apply apply_amount_representable; exact zero_representable
      |exact (ratio_amount_mono W_environments _ _ _ (Z.lt_le_incl _ _ P3) He)|].
    apply apply_amount_mono;
      [repeat apply apply_amount_representable; exact zero_representable
      |exact (flat_amount_mono W_road_types _ _ (Z.lt_le_incl _ _ P2) M2)|].
    apply apply_amount_mono;
      [exact zero_representable
      |exact (ratio_amount_mono W_issues _ _ _ (Z.lt_le_incl _ _ P1) Hi)
      |apply Z.le_refl]. }
  split; [exact H|]. exact (round4_mono _ _ H).
Qed.

Lemma score_monotone_in_labels_witness :
  let F := {| road_type := Some "local street";
              issues := ["speeding"; "pedestrian crashes"];
              environments := ["school zone"]; speed_kmh := Some 30;
              urban_rural := Some "urban" |} in
  let it := {| it_id := "1"; it_name := "Raised Pedestrian Crossing";
               it_description := ""; it_road_types := Some ["local street"];
               it_issues := Some ["speeding"]; it_environments := None;
               it_suitable_speed_range := Some [20; 50];
               it_urban_rural := None; it_references := None |} in
  let it' := {| it_id := "1"; it_name := "Raised Pedestrian Crossing";
                it_description := "";
                it_road_types := Some ["Local Street"; "urban collector"];
                it_issues := Some ["Pedestrian crashes"; "speeding"];
                it_environments := Some ["school zone"];
                it_suitable_speed_range := Some [20; 50];
                it_urban_rural := Some ["urban"]; it_references := None |} in
  covers it it'
  /\ _score (score_item F it) <= _score (score_item F it').
Proof.
  intros F it it'.
  assert (H : covers it it').
  { unfold covers. split; [|split; [|split; [|split]]];
      [apply (bool_decide_unpack _); vm_compute; reflexivity..|reflexivity]. }
  split; [exact H|]. exact (proj2 (score_monotone_in_labels F it it' H)).
Defined.

(** ** The largest score *)

Lemma int_truediv_self (n : Z) : 0 < n -> Binary64.int_truediv n n = Binary64.one.
Proof.
  intros Hn. pose proof scale_pos as Hs.
  pose proof one_representable as E. unfold Binary64.representable in E.
  rewrite <- E. unfold Binary64.int_truediv, Binary64.one.
  apply Z.le_antisymm; apply round_mono; try assumption; try reflexivity;
    rewrite Z.mul_1_r; apply Z.eq_le_incl; ring.
Qed.

Lemma mul_one_r (w : Binary64.float) :
  Binary64.representable w -> Binary64.mul w Binary64.one = w.
Proof.
  intros Hw. pose proof scale_pos as Hs. unfold Binary64.representable in Hw.
  rewrite <- Hw at 2. unfold Binary64.mul, Binary64.one.
  apply Z.le_antisymm; apply round_mono; try assumption; try reflexivity;
    rewrite Z.mul_1_r; apply Z.le_refl.
Qed.

Lemma ratio_amount_full (w : Binary64.float) (labels rec : list string) :
  Binary64.representable w -> labels <> [] ->
  normalized_set labels ⊆ normalized_set rec ->
  ratio_amount w labels rec = Some w
  /\ nonempty_list labels && (0 <? list_overlap labels rec)%nat = true.
Proof.
  intros Hw Hne Hsub. unfold ratio_amount.
  pose proof (distinct_count_pos labels Hne) as Hn.
  rewrite (list_overlap_full labels rec Hsub).
  apply nonempty_list_true in Hne. rewrite Hne. split.
  - rewrite int_truediv_self by (clear - Hn; lia).
    rewrite (mul_one_r w Hw). reflexivity.
  - apply Nat.ltb_lt in Hn. rewrite Hn. reflexivity.
Qed.

(** X14. The bound 1.0 is reached: when the filter sets all five fields
    and the record matches each of them in full, the score is exactly
    1.0, unrounded and rounded, and all five reasons are given. *)
Theorem full_match_scores_one (F : filters) (it : intervention) :
  fully_matches F it ->
  fst (score_state F it) = Binary64.one
  /\ _score (score_item F it) = Binary64.one
  /\ _reasons (score_item F it)
     = [ issues_reason (distinct_count (issues F)) (distinct_count (issues F));
         "Applicable to specified road type";
         "Suitable for the described environment";
         "Effective within given speed range";
         "Designed for the specified context (urban/rural)" ].
Proof.
  intros (Hi & Hisub & He & Hesub & M2 & M4 & M5).
  destruct weights_representable as (R1 & R2 & R3 & R4 & R5).
  destruct (ratio_amount_full W_issues (issues F) (get_list (it_issues it))
              R1 Hi Hisub) as [A1 C1].
  destruct (ratio_amount_full W_environments (environments F)
              (get_list (it_environments it)) R3 He Hesub) as [A3 C3].
  assert (H : fst (score_state F it) = Binary64.one).
  { rewrite score_state_fst. unfold issues_amount, environments_amount.
    rewrite A1, A3, M2, M4, M5. exact weights_sum. }
  split; [exact H|]. split.
  - change (Binary64.round4 (fst (score_state F it)) = Binary64.one).
    rewrite H. exact round4_one.
  - change (_reasons (score_item F it)) with (snd (score_state F it)).
    rewrite score_state_snd, C1, C3, M2, M4, M5.
    rewrite (list_overlap_full _ _ Hisub). reflexivity.
Qed.

Lemma full_match_scores_one_witness :
  let F := {| road_type := Some "Rural Highway";
              issues := ["run-off-road"; "HEAD-ON"];
              environments := ["curve"]; speed_kmh := Some 90;
              urban_rural := Some "rural" |} in
  let it := {| it_id := "2"; it_name := "Rumble Strips"; it_description := "";
               it_road_types := Some ["rural highway"; "rural arterial"];
               it_issues := Some ["run-off-road"; "head-on"];
               it_environments := Some ["curve"; "midblock"];
               it_suitable_speed_range := Some [50; 110];
               it_urban_rural := Some ["rural"]; it_references := None |} in
  fully_matches F it /\ _score (score_item F it) = Binary64.one.
Proof.
  intros F it.
  assert (H : fully_matches F it).
  { unfold fully_matches.
    split; [discriminate|].
    split; [apply (bool_decide_unpack _); vm_compute; reflexivity|].
    split; [discriminate|].
    split; [apply (bool_decide_unpack _); vm_compute; reflexivity|].
    split; [vm_compute; reflexivity|].
    split; vm_compute; reflexivity. }
  split; [exact H|]. exact (proj1 (proj2 (full_match_scores_one F it H))).
Defined.

(** X15. The score of a record is a number of ten-thousandths: it is
    the double nearest to [k / 10000] for an integer [k] between 0 and
    10000, namely the unrounded score times 10000 rounded half to even. *)
Theorem score_has_four_decimals (F : filters) (it : intervention) :
  exists k,
    0 <= k <= 10000
    /\ k = Binary64.round_half_even (fst (score_state F it) * 10000)
             Binary64.scale
    /\ _score (score_item F it) = Binary64.literal k 10000.
Proof.
  pose proof scale_pos as Hs.
  pose proof (score_state_bounds F it) as [Hlo Hhi]. unfold Binary64.one in Hhi.
  exists (Binary64.round_half_even (fst (score_state F it) * 10000)
            Binary64.scale).
  split; [|split; reflexivity]. split.
  - pose proof (round_half_even_mono (0 * Binary64.scale) Binary64.scale
                  (fst (score_state F it) * 10000) Binary64.scale Hs Hs) as M.
    rewrite round_half_even_exact in M by exact Hs. apply M.
    apply Z.mul_le_mono_nonneg_r; [apply Z.lt_le_incl, Hs|].
    rewrite Z.mul_0_l. apply Z.mul_nonneg_nonneg; [exact Hlo|discriminate].
  - pose proof (round_half_even_mono (fst (score_state F it) * 10000)
                  Binary64.scale (10000 * Binary64.scale) Binary64.scale
                  Hs Hs) as M.
    rewrite round_half_even_exact in M by exact Hs. apply M.
    apply Z.mul_le_mono_nonneg_r; [apply Z.lt_le_incl, Hs|].
    rewrite (Z.mul_comm 10000). apply Z.mul_le_mono_nonneg_r;
      [discriminate|exact Hhi].
Qed.

(** ** The response of [recommend] *)

Lemma recommend_returns (req : RecommendationRequest)
  (docs : list intervention) (resp : response) :
  recommend req docs = Returns resp ->
  merged_filters req = Returns (filters_used resp)
  /\ items resp
     = make_result
         <$> take (Z.to_nat (clamp_top_k (req_top_k req)))
                  (rank_interventions docs (filters_used resp))
  /\ count resp = length (items resp).
Proof.
  unfold recommend. destruct (merged_filters req) as [F|]; [|discriminate].
  intros [= <-]. cbn [filters_used items count]. auto.
Qed.

(** X16. The items of a response are in non-increasing order of score,
    every score lies between 0 and 1.0, [count] is the number of items,
    which is at most the number of stored records, and every item
    reports the id, name, score and reasons of a stored record as ranked
    under the filter the response declares in [filters_used]. *)
Theorem recommend_items_ranked (req : RecommendationRequest)
  (docs : list intervention) (resp : response) :
  recommend req docs = Returns resp ->
  StronglySorted (fun a b => res_score b <= res_score a) (items resp)
  /\ Forall (fun r => 0 <= res_score r <= Binary64.one) (items resp)
  /\ count resp = length (items resp)
  /\ (length (items resp) <= length docs)%nat
  /\ Forall (fun r =>
               exists it, it ∈ docs
                 /\ res_id r = it_id it /\ res_name r = it_name it
                 /\ res_description r = it_description it
                 /\ res_score r = _score (score_item (filters_used resp) it)
                 /\ res_reasons r
                    = _reasons (score_item (filters_used resp) it))
            (items resp).
Proof.
  intros H. destruct (recommend_returns req docs resp H) as (_ & E & Hc).
  set (F := filters_used resp) in *.
  set (n := Z.to_nat (clamp_top_k (req_top_k req))) in *.
  assert (Hs : StronglySorted (desc _score) (rank_interventions docs F))
    by apply (sort_desc_sorted _score).
  assert (Hp : rank_interventions docs F ≡ₚ score_item F <$> docs)
    by apply (sort_desc_perm _score).
  rewrite E.
  split; [|split; [|split; [|split]]].
  - apply (StronglySorted_fmap make_result (desc _score));
      [intros x y Hxy; exact Hxy|].
    rewrite <- (take_drop n (rank_interventions docs F)) in Hs.
    exact (StronglySorted_app_1_l _ _ _ Hs).
  - apply Forall_fmap, Forall_take.
    rewrite Hp. apply Forall_fmap, Forall_forall.
    intros it _. exact (score_item_bounds F it).
  - rewrite <- E. exact Hc.
  - rewrite length_fmap, length_take, rank_interventions_length. lia.
  - apply Forall_fmap, Forall_take. rewrite Hp.
    apply Forall_fmap, Forall_forall.
    intros it Hit. exists it. simpl. auto 10.
Qed.

Lemma recommend_items_ranked_witness :
  let a := {| it_id := "1"; it_name := "Raised Pedestrian Crossing";
              it_description := ""; it_road_types := Some ["local street"];
              it_issues := Some ["speeding"; "pedestrian crashes"];
              it_environments := Some ["school zone"];
              it_suitable_speed_range := Some [20; 50];
              it_urban_rural := Some ["urban"]; it_references := None |} in
  let b := {| it_id := "2"; it_name := "Rumble Strips"; it_description := "";
              it_road_types := Some ["rural highway"];
              it_issues := Some ["run-off-road"];
              it_environments := Some ["curve"];
              it_suitable_speed_range := Some [50; 110];
              it_urban_rural := Some ["rural"]; it_references := None |} in
  let req := {| req_prompt := Some "speeding near a school zone at 40 km/h";
                req_road_type := None; req_issues := [];
                req_environments := []; req_speed_kmh := None;
                req_urban_rural := Some "urban"; req_top_k := 10 |} in
  exists resp,
    recommend req [b; a] = Returns resp
    /\ StronglySorted (fun x y => res_score y <= res_score x) (items resp)
    /\ count resp = length (items resp).
Proof.
  intros a b req.
  assert (HF : merged_filters req
               = Returns {| road_type := None; issues := ["speeding"];
                            environments := ["school zone"];
                            speed_kmh := Some 40;
                            urban_rural := Some "urban" |})
    by (vm_compute; reflexivity).
  assert (H : exists resp, recommend req [b; a] = Returns resp)
    by (unfold recommend; rewrite HF; eexists; reflexivity).
  destruct H as [resp H]. exists resp. split; [exact H|].
  destruct (recommend_items_ranked req [b; a] resp H) as (H1 & _ & H3 & _).
  exact (conj H1 H3).
Defined.


(** ** Merging filters *)

(** X18. Merging filters is associative and idempotent and has the
    filter with no field set as unit on both sides: merging a parse that
    found nothing changes nothing, merging into an unset filter gives the
    parse, and a filter whose five fields are all set is not changed by
    any parse. *)
Theorem merge_filters_monoid (e p q : filters) :
  merge_filters (merge_filters e p) q = merge_filters e (merge_filters p q)
  /\ merge_filters (merge_filters e p) p = merge_filters e p
  /\ merge_filters e unset_filters = e
  /\ merge_filters unset_filters p = p
  /\ (road_type e <> None -> issues e <> [] -> environments e <> [] ->
      speed_kmh e <> None -> urban_rural e <> None ->
      merge_filters e p = e).
Proof.
  destruct e as [e1 e2 e3 e4 e5], p as [p1 p2 p3 p4 p5],
    q as [q1 q2 q3 q4 q5].
  unfold merge_filters, merge_single, merge_multi, unset_filters; simpl.
  split; [|split; [|split; [|split]]].
  - destruct e1, e2, e3, e4, e5; reflexivity.
  - destruct e1, e2, e3, e4, e5, p1, p2, p3, p4, p5; reflexivity.
  - destruct e1, e2, e3, e4, e5; reflexivity.
  - reflexivity.
  - intros H1 H2 H3 H4 H5.
    destruct e1, e2, e3, e4, e5; try congruence; reflexivity.
Qed.

(** X19. Asking for more results only extends the answer: with the same
    request and a larger [top_k], the items of the first response are a
    prefix of the items of the second, under the same filter. *)
Theorem recommend_top_k_prefix (req : RecommendationRequest)
  (docs : list intervention) (k : Z) (resp resp' : response) :
  recommend req docs = Returns resp ->
  recommend (with_top_k req k) docs = Returns resp' ->
  req_top_k req <= k ->
  filters_used resp' = filters_used resp
  /\ items resp `prefix_of` items resp'.
Proof.
  intros H H' Hk.
  destruct (recommend_returns _ _ _ H) as (HF & E & _).
  destruct (recommend_returns _ _ _ H') as (HF' & E' & _).
  assert (EF : filters_used resp' = filters_used resp).
  { change (merged_filters (with_top_k req k))
      with (merged_filters req) in HF'. congruence. }
  split; [exact EF|]. rewrite E, E', EF.
  cbn [with_top_k req_top_k].
  set (l := rank_interventions docs (filters_used resp)).
  set (n := Z.to_nat (clamp_top_k (req_top_k req))).
  set (n' := Z.to_nat (clamp_top_k k)).
  assert (Hn : (n <= n')%nat) by (unfold n, n', clamp_top_k; lia).
  replace n with (Nat.min n n') by lia.
  rewrite <- take_take.
  exists (make_result <$> drop n (take n' l)).
  rewrite <- fmap_app, take_drop. reflexivity.
Qed.

Lemma recommend_top_k_prefix_witness :
  let a := {| it_id := "1"; it_name := "Raised Pedestrian Crossing";
              it_description := ""; it_road_types := Some ["local street"];
              it_issues := Some ["speeding"]; it_environments := None;
              it_suitable_speed_range := None; it_urban_rural := None;
              it_references := None |} in
  let b := {| it_id := "2"; it_name := "Rumble Strips"; it_description := "";
              it_road_types := None; it_issues := Some ["run-off-road"];
              it_environments := None; it_suitable_speed_range := None;
              it_urban_rural := None; it_references := None |} in
  let req := {| req_prompt := Some "speeding"; req_road_type := None;
                req_issues := []; req_environments := [];
                req_speed_kmh := None; req_urban_rural := None;
                req_top_k := 1 |} in
  exists resp resp',
    (recommend req [b; a] = Returns resp
     /\ recommend (with_top_k req 2) [b; a] = Returns resp'
     /\ req_top_k req <= 2)
    /\ items resp `prefix_of` items resp'.
Proof.
  intros a b req.
  assert (HF : merged_filters req
               = Returns {| road_type := None; issues := ["speeding"];
                            environments := []; speed_kmh := None;
                            urban_rural := None |})
    by (vm_compute; reflexivity).
  assert (H : exists resp, recommend req [b; a] = Returns resp)
    by (unfold recommend; rewrite HF; eexists; reflexivity).
  assert (H' : exists resp, recommend (with_top_k req 2) [b; a] = Returns resp).
  { unfold recommend.
    change (merged_filters (with_top_k req 2)) with (merged_filters req).
    rewrite HF. eexists. reflexivity. }
  destruct H as [resp H]. destruct H' as [resp' H'].
  assert (Hk : req_top_k req <= 2) by discriminate.
  exists resp, resp'. split; [auto|].
  exact (proj2 (recommend_top_k_prefix req [b; a] 2 resp resp' H H' Hk)).
Defined.
